(** * The sentinel controller of the two-phase-commit architecture

    A shallow embedding of [cbdc::sentinel_2pc::controller]
    (src/uhs/twophase/sentinel_2pc/controller.cpp) and the properties of its
    transaction life cycle: static validation, self-attestation, quorum
    gathering over the peer sentinels, coordinator submission and the
    translation of the coordinator's outcome.

    The controller talks to collaborators that live outside the file (the
    transaction validator, the RPC clients, the random engine, the database
    handle).  Their answers are read from an explicit environment [env], and
    every call made to them is recorded in a chronological trace, so that
    statements such as "no peer is queried" are statements about that trace.
    Asynchronous continuations (the lambdas handed to the RPC clients) are
    defunctionalised: a closure is a record of the values the lambda captured,
    stored in the world until the reply is delivered. *)

From Stdlib Require Import NArith Lia.
From Stdlib.Strings Require Import Ascii String Byte.
From stdpp Require Import base option list gmap sets strings.

Local Open Scope string_scope.

(** ** Bytes, hashes and keys *)

#[global] Instance byte_eq_dec : EqDecision byte := Byte.byte_eq_dec.

#[global] Instance byte_countable : Countable byte :=
  inj_countable Byte.to_N Byte.of_N Byte.of_to_N.

(** [hash_t], [pubkey_t], [privkey_t] and [signature_t] are fixed-size arrays
    of [unsigned char] in the code base. *)
Definition hash_t : Type := list byte.
Definition pubkey_t : Type := list byte.
Definition privkey_t : Type := list byte.
Definition signature_t : Type := list byte.

(** [transaction::compact_tx::attestation] is a pair of a public key and a
    signature. *)
Definition attestation : Type := (pubkey_t * signature_t)%type.

(** [network::endpoint_t] is a host name and a port. *)
Definition endpoint_t : Type := (string * N)%type.

(** ** Hexadecimal rendering used by the database statements *)

Definition hex_digits : string := "0123456789ABCDEF".

(** ["0123456789ABCDEF"[i]]; the literal carries a terminating NUL, which is
    what an index of 16 would read. *)
Definition hex_digit (i : N) : ascii :=
  match String.get (N.to_nat i) hex_digits with
  | Some a => a
  | None => Ascii.zero
  end.

(** The loop [for (unsigned char c : s) { push_back(..[c >> 4]);
    push_back(..[c & 15]); }]. *)
Fixpoint to_hex (s : list byte) : string :=
  match s with
  | [] => EmptyString
  | c :: s' =>
      String (hex_digit (N.shiftr (Byte.to_N c) 4))
        (String (hex_digit (N.land (Byte.to_N c) 15)) (to_hex s'))
  end.

(** ** Data model *)

(** [cbdc::sentinel::tx_status], restricted to the values the controller
    produces. *)
Inductive tx_status : Type :=
| static_invalid
| state_invalid
| confirmed.

#[global] Instance tx_status_eq_dec : EqDecision tx_status.
Proof. solve_decision. Defined.

(** [transaction::compact_tx]. *)
Record compact_tx : Type := mk_compact_tx {
  m_id : hash_t;
  m_inputs : list hash_t;
  m_uhs_outputs : list hash_t;
  m_attestations : gset attestation
}.

(** [config::options], the fields the controller reads. *)
Record options : Type := mk_options {
  m_sentinel_endpoints : list endpoint_t;
  m_coordinator_endpoints : list endpoint_t;
  m_sentinel_private_keys : gmap N privkey_t;
  m_attestation_threshold : N
}.

(** A [sentinel::rpc::client]: the endpoint it was built for and whether its
    [init(false)] succeeded. *)
Record sentinel_client : Type := mk_sentinel_client {
  cl_endpoint : endpoint_t;
  cl_started : bool
}.

(** The controller object.  [m_dist] is kept as the closed range of the
    [std::uniform_int_distribution<size_t>]; the random engine [m_rand] is
    the draw counter of the world. *)
Record controller : Type := mk_controller {
  m_sentinel_id : N;
  m_opts : options;
  m_coordinator_client : endpoint_t;
  m_privkey : privkey_t;
  m_sentinel_clients : list sentinel_client;
  m_dist : N * N
}.

Inductive log_level : Type := lvl_debug | lvl_info | lvl_warn | lvl_error.

(** The caller's [execute_result_callback_type] is identified by a number;
    invoking it is an event of the trace. *)
Definition callback_id : Type := nat.

(** [static_cast<uint32_t>] of a [size_t]. *)
Definition static_cast_uint32 (n : N) : N := n mod 2 ^ 32.

(** [std::uniform_int_distribution<size_t>(a, b)] applied to an output [g]
    of the engine: a value of the closed range [[a, b]]. *)
Definition uniform_draw (d : N * N) (g : N) : N :=
  d.1 + g mod (d.2 - d.1 + 1).

(** ** The constructor *)

Inductive ctor_error : Type :=
| modulo_by_zero
| index_out_of_range.

(** [controller::controller]: the coordinator client is built for the
    endpoint at index [sentinel_id % static_cast<uint32_t>(size())].  Nothing
    guards the divisor or the index; both faults are undefined behaviour in
    C++ and are reported here as errors.  [sentinel_id] is a [uint32_t].
    The members the initialiser list does not name are declared in the
    header, outside this file: [m_privkey] is taken zero-initialised, the
    client vector empty and [m_dist] with the default range of a
    distribution over [size_t]; [init] fills the vector and sets [m_dist]. *)
Definition controller_new (sentinel_id : N) (opts : options)
  : controller + ctor_error :=
  let n :=
    static_cast_uint32 (N.of_nat (length (m_coordinator_endpoints opts))) in
  if (n =? 0)%N then inr modulo_by_zero
  else
    match m_coordinator_endpoints opts !! N.to_nat (sentinel_id mod n) with
    | None => inr index_out_of_range
    | Some ep =>
        inl {| m_sentinel_id := sentinel_id;
               m_opts := opts;
               m_coordinator_client := ep;
               m_privkey := repeat x00 32;
               m_sentinel_clients := [];
               m_dist := (0, 2 ^ 64 - 1)%N |}
    end.

Section Controller.

(** [transaction::full_tx] and [transaction::validation::tx_error] are
    opaque to the controller. *)
Context {full_tx tx_error : Type}.

(** [cbdc::sentinel::execute_response]. *)
Record execute_response : Type := mk_execute_response {
  m_tx_status : tx_status;
  m_tx_error : option tx_error
}.

(** Calls that leave the controller, in the order they are made.
    [ev_gather] records an entry into [gather_attestations] with the
    [requested] set it received. *)
Inductive event : Type :=
| ev_log (l : log_level) (args : list string)
| ev_sleep (ms : N)
| ev_result_callback (cb : callback_id) (r : option execute_response)
| ev_compact_tx (tx : full_tx)
| ev_sign (ctx : compact_tx)
| ev_gather (ctx : compact_tx) (requested : gset N)
| ev_peer_validate (peer : N) (tx : full_tx) (accepted : bool)
| ev_coordinator_execute (ctx : compact_tx) (accepted : bool)
| ev_db_execute (sql : string) (ok : bool).

(** The lambda of [gather_attestations]: [[=]] copies [requested],
    [sentinel_id], [tx], [result_callback] and [ctx] into the closure. *)
Record validate_closure : Type := mk_validate_closure {
  vc_sentinel_id : N;
  vc_requested : gset N;
  vc_tx : full_tx;
  vc_result_callback : callback_id;
  vc_ctx : compact_tx
}.

(** The lambda [cb] of [send_compact_tx], which owns [res_cb]. *)
Record coordinator_closure : Type := mk_coordinator_closure {
  cc_res_cb : callback_id
}.

(** The world outside the controller object: how many values were drawn
    from [m_rand], how many calls the coordinator client and the database
    received, the callbacks the RPC clients hold, and the trace. *)
Record world : Type := mk_world {
  w_draws : nat;
  w_coordinator_calls : nat;
  w_db_calls : nat;
  w_validate_cbs : list validate_closure;
  w_coordinator_cbs : list coordinator_closure;
  w_trace : list event
}.

Definition empty_world : world :=
  {| w_draws := 0; w_coordinator_calls := 0; w_db_calls := 0;
     w_validate_cbs := []; w_coordinator_cbs := []; w_trace := [] |}.

(** What the collaborators answer. *)
Record env : Type := mk_env {
  (** [transaction::validation::check_tx] *)
  check_tx : full_tx → option tx_error;
  (** [transaction::tx_id] and the input and output identifiers the compact
      transaction is built from *)
  tx_id : full_tx → hash_t;
  tx_inputs : full_tx → list hash_t;
  tx_uhs_outputs : full_tx → list hash_t;
  (** [compact_tx::sign] *)
  sign : compact_tx → privkey_t → attestation;
  (** [pubkey_from_privkey] *)
  pubkey_from_privkey : privkey_t → pubkey_t;
  (** [cbdc::to_string] on hashes and keys, and
      [transaction::validation::to_string] *)
  to_string : list byte → string;
  validation_to_string : tx_error → string;
  (** the successive outputs of [m_rand] *)
  rand : nat → N;
  (** whether [validate_transaction] on peer [i], issued after the [n]-th
      draw, was accepted for dispatch *)
  peer_accepts : nat → N → bool;
  (** whether the [n]-th [execute_transaction] on the coordinator client
      was accepted for dispatch *)
  coordinator_accepts : nat → bool;
  (** whether the [n]-th [OracleDB_execute] returned 0 *)
  db_execute_ok : nat → bool;
  db_init_ok : bool;
  db_connect_ok : bool;
  (** whether the [n]-th [m_coordinator_client.init()] succeeded *)
  coordinator_init_ok : nat → bool;
  client_init_ok : endpoint_t → bool;
  rpc_server_init_ok : bool
}.

(** ** The monad: state, divergence of the retry loops, undefined
    behaviour *)

Inductive outcome (A : Type) : Type :=
| Returned (a : A) (w : world)
| Diverged (w : world)
| Undefined (w : world).
Arguments Returned {A} a w.
Arguments Diverged {A} w.
Arguments Undefined {A} w.

Definition M (A : Type) : Type := world → outcome A.

Definition ret {A} (a : A) : M A := λ w, Returned a w.

Definition bind {A B} (m : M A) (k : A → M B) : M B :=
  λ w, match m w with
       | Returned a w' => k a w'
       | Diverged w' => Diverged w'
       | Undefined w' => Undefined w'
       end.

Definition diverge {A} : M A := λ w, Diverged w.
Definition undefined {A} : M A := λ w, Undefined w.

Notation "'do' x <- m ; k" := (bind m (λ x, k))
  (at level 10, x name, m at level 100, k at level 200).
Notation "m ;; k" := (bind m (λ _, k))
  (at level 100, k at level 200, right associativity).

Definition emit (e : event) : M unit :=
  λ w, Returned tt
         {| w_draws := w_draws w;
            w_coordinator_calls := w_coordinator_calls w;
            w_db_calls := w_db_calls w;
            w_validate_cbs := w_validate_cbs w;
            w_coordinator_cbs := w_coordinator_cbs w;
            w_trace := w_trace w ++ [e] |}.

(** [m_logger->debug(..)], [info], [warn], [error] with their arguments. *)
Definition log (l : log_level) (args : list string) : M unit :=
  emit (ev_log l args).

(** [std::this_thread::sleep_for], in milliseconds. *)
Definition sleep_for (ms : N) : M unit := emit (ev_sleep ms).


Definition tick_draws : M nat :=
  λ w, Returned (w_draws w)
         {| w_draws := S (w_draws w);
            w_coordinator_calls := w_coordinator_calls w;
            w_db_calls := w_db_calls w;
            w_validate_cbs := w_validate_cbs w;
            w_coordinator_cbs := w_coordinator_cbs w;
            w_trace := w_trace w |}.

Definition tick_coordinator_calls : M nat :=
  λ w, Returned (w_coordinator_calls w)
         {| w_draws := w_draws w;
            w_coordinator_calls := S (w_coordinator_calls w);
            w_db_calls := w_db_calls w;
            w_validate_cbs := w_validate_cbs w;
            w_coordinator_cbs := w_coordinator_cbs w;
            w_trace := w_trace w |}.

Definition tick_db_calls : M nat :=
  λ w, Returned (w_db_calls w)
         {| w_draws := w_draws w;
            w_coordinator_calls := w_coordinator_calls w;
            w_db_calls := S (w_db_calls w);
            w_validate_cbs := w_validate_cbs w;
            w_coordinator_cbs := w_coordinator_cbs w;
            w_trace := w_trace w |}.

(** The RPC client keeps the callback of an accepted request. *)
Definition hold_validate_cb (cl : validate_closure) : M unit :=
  λ w, Returned tt
         {| w_draws := w_draws w;
            w_coordinator_calls := w_coordinator_calls w;
            w_db_calls := w_db_calls w;
            w_validate_cbs := w_validate_cbs w ++ [cl];
            w_coordinator_cbs := w_coordinator_cbs w;
            w_trace := w_trace w |}.

Definition hold_coordinator_cb (cl : coordinator_closure) : M unit :=
  λ w, Returned tt
         {| w_draws := w_draws w;
            w_coordinator_calls := w_coordinator_calls w;
            w_db_calls := w_db_calls w;
            w_validate_cbs := w_validate_cbs w;
            w_coordinator_cbs := w_coordinator_cbs w ++ [cl];
            w_trace := w_trace w |}.

Variable E : env.

(** ** Calls to the collaborators *)

(** [result_callback(r)]. *)
Definition call_result_callback (cb : callback_id)
    (r : option execute_response) : M unit :=
  emit (ev_result_callback cb r).

(** [m_dist(m_rand)]: the draw also dates the dispatch that follows it. *)
Definition draw_sentinel (c : controller) : M (nat * N) :=
  do n <- tick_draws;
  ret (n, uniform_draw (m_dist c) (rand E n)).

(** Modelled from the spec: [sentinel::rpc::client] is declared outside this
    file.  Section 6 gives its contract: [validate(full_tx, on_result)] is
    asynchronous and [on_result] later receives the peer's optional
    attestation; a request that could not be enqueued is reported at once.
    So the client keeps [cb] exactly when it accepts the request.  The call
    is [m_sentinel_clients[sentinel_id]->validate_transaction(tx, cb)];
    indexing the vector out of range is undefined. *)
Definition peer_validate_transaction (c : controller) (n : nat)
    (sentinel_id : N) (tx : full_tx) (cb : validate_closure) : M bool :=
  match m_sentinel_clients c !! N.to_nat sentinel_id with
  | None => undefined
  | Some _ =>
      let accepted := peer_accepts E n sentinel_id in
      emit (ev_peer_validate sentinel_id tx accepted);;
      (if accepted then hold_validate_cb cb else ret tt);;
      ret accepted
  end.

(** Modelled from the spec: [coordinator::rpc::client] is declared outside
    this file.  Section 6 gives its contract: [submit(compact_tx, on_result)]
    returns at once whether the call was accepted for dispatch, and an
    accepted call later hands the optional outcome to [on_result].  The call
    is [m_coordinator_client.execute_transaction(ctx, cb)]. *)
Definition coordinator_execute_transaction (ctx : compact_tx)
    (cb : coordinator_closure) : M bool :=
  do n <- tick_coordinator_calls;
  let accepted := coordinator_accepts E n in
  emit (ev_coordinator_execute ctx accepted);;
  (if accepted then hold_coordinator_cb cb else ret tt);;
  ret accepted.

(** [OracleDB_execute(&db, sql) == 0]. *)
Definition OracleDB_execute (sql : string) : M bool :=
  do n <- tick_db_calls;
  let ok := db_execute_ok E n in
  emit (ev_db_execute sql ok);;
  ret ok.

(** Modelled from the spec: the constructor [compact_tx(full_tx)] is
    declared in the transaction module, outside this file.  Section 3 of
    the specification fixes what it builds: the identity derived from the
    full transaction, the identifiers of the consumed and produced ledger
    entries, and an attestation set of size 0. *)
Definition compact_tx_from (tx : full_tx) : compact_tx :=
  {| m_id := tx_id E tx;
     m_inputs := tx_inputs E tx;
     m_uhs_outputs := tx_uhs_outputs E tx;
     m_attestations := ∅ |}.

(** [cbdc::transaction::compact_tx(tx)], as a recorded call. *)
Definition compact_tx_of (tx : full_tx) : M compact_tx :=
  emit (ev_compact_tx tx);;
  ret (compact_tx_from tx).

(** [compact_tx.sign(m_secp.get(), m_privkey)]. *)
Definition compact_tx_sign (ctx : compact_tx) (privkey : privkey_t)
    : M attestation :=
  emit (ev_sign ctx);;
  ret (sign E ctx privkey).

(** [ctx.m_attestations.insert(a)]. *)
Definition insert_attestation (a : attestation) (ctx : compact_tx)
    : compact_tx :=
  {| m_id := m_id ctx;
     m_inputs := m_inputs ctx;
     m_uhs_outputs := m_uhs_outputs ctx;
     m_attestations := {[a]} ∪ m_attestations ctx |}.


(** ** Start-up: [controller::init] *)

(** [while(!m_coordinator_client.init() && retry_threshold-- > 0)], with
    [retry_delay] in seconds.  [attempt] counts the calls to [init()]. *)
Fixpoint coordinator_init_loop (retry_threshold : nat) (attempt : nat)
    (retry_delay : N) : M unit :=
  if coordinator_init_ok E attempt then ret tt
  else
    match retry_threshold with
    | 0 => ret tt
    | S retry_threshold' =>
        log lvl_warn ["Failed to start coordinator client."];;
        sleep_for (1000 * retry_delay);;
        match retry_threshold' with
        | 0 => coordinator_init_loop retry_threshold' (S attempt) retry_delay
        | S _ =>
            log lvl_warn ["Retrying..."];;
            coordinator_init_loop retry_threshold' (S attempt)
              (retry_delay * 2)
        end
    end.

(** [for(const auto& ep : m_opts.m_sentinel_endpoints)]: every endpoint
    equal to this sentinel's own is skipped, every other one gets a client,
    whether or not the client starts. *)
Fixpoint connect_sentinels (self : endpoint_t) (eps : list endpoint_t)
    (clients : list sentinel_client) : M (list sentinel_client) :=
  match eps with
  | [] => ret clients
  | ep :: eps' =>
      if decide (ep = self) then connect_sentinels self eps' clients
      else
        let started := client_init_ok E ep in
        (if started then ret tt
         else log lvl_warn ["Failed to start sentinel client"]);;
        connect_sentinels self eps'
          (clients ++ [{| cl_endpoint := ep; cl_started := started |}])
  end.

Definition set_privkey (k : privkey_t) (c : controller) : controller :=
  {| m_sentinel_id := m_sentinel_id c;
     m_opts := m_opts c;
     m_coordinator_client := m_coordinator_client c;
     m_privkey := k;
     m_sentinel_clients := m_sentinel_clients c;
     m_dist := m_dist c |}.

Definition set_clients (cls : list sentinel_client) (d : N * N)
    (c : controller) : controller :=
  {| m_sentinel_id := m_sentinel_id c;
     m_opts := m_opts c;
     m_coordinator_client := m_coordinator_client c;
     m_privkey := m_privkey c;
     m_sentinel_clients := cls;
     m_dist := d |}.

(** From the coordinator connection to the end of [init]. *)
Definition init_connections (c : controller) : M (bool * controller) :=
  coordinator_init_loop 4 0 1;;
  match m_sentinel_endpoints (m_opts c) !! N.to_nat (m_sentinel_id c) with
  | None => undefined
  | Some self =>
      do clients <- connect_sentinels self (m_sentinel_endpoints (m_opts c))
                      (m_sentinel_clients c);
      let dist_lower_bound := 0%N in
      let dist_upper_bound :=
        match clients with
        | [] => 0%N
        | _ :: _ => (N.of_nat (length clients) - 1)%N
        end in
      let c' := set_clients clients (dist_lower_bound, dist_upper_bound) c in
      if rpc_server_init_ok E then ret (true, c')
      else
        log lvl_error ["Failed to start sentinel RPC server"];;
        ret (false, c')
  end.

(** The database connection at the top of [init]:
    [if (OracleDB_init(&db) == 0) { if (OracleDB_connect(&db) == 0) .. }]. *)
Definition connect_database : M unit :=
  if db_init_ok E then
    if db_connect_ok E
    then log lvl_info ["Connected to Oracle Autonomous Database"]
    else log lvl_error ["Failed to connect to Oracle Autonomous Database"]
  else ret tt.

(** [controller::init]: the returned controller is the object after the
    call. *)
Definition init (c : controller) : M (bool * controller) :=
  connect_database;;
  if decide (m_sentinel_endpoints (m_opts c) = []) then
    log lvl_error ["No sentinel endpoints are defined."];;
    ret (false, c)
  else if (N.of_nat (length (m_sentinel_endpoints (m_opts c)))
             <=? m_sentinel_id c)%N then
    log lvl_error
      ["The sentinel ID is too large for the number of sentinels."];;
    ret (false, c)
  else
    match m_sentinel_private_keys (m_opts c) !! m_sentinel_id c with
    | None =>
        if (0 <? m_attestation_threshold (m_opts c))%N then
          log lvl_error ["No private key specified"];;
          ret (false, c)
        else init_connections c
    | Some skey =>
        let pubkey := pubkey_from_privkey E skey in
        log lvl_info ["Sentinel public key:"; to_string E pubkey];;
        init_connections (set_privkey skey c)
    end.

(** ** Result translation: [controller::result_handler] *)

Definition result_handler (res : option bool) (res_cb : callback_id)
    : M unit :=
  match res with
  | Some v =>
      let resp := {| m_tx_status := confirmed; m_tx_error := None |} in
      let resp :=
        if negb v
        then {| m_tx_status := state_invalid; m_tx_error := m_tx_error resp |}
        else resp in
      call_result_callback res_cb (Some resp)
  | None => call_result_callback res_cb None
  end.

(** ** Coordinator submission: [controller::send_compact_tx] *)

(** [while(!m_coordinator_client.execute_transaction(ctx, cb)) sleep(100ms)].
    The loop has no bound of its own; [fuel] bounds the number of
    iterations the model follows. *)
Fixpoint submit_loop (fuel : nat) (ctx : compact_tx)
    (cb : coordinator_closure) : M unit :=
  match fuel with
  | 0 => diverge
  | S fuel' =>
      do accepted <- coordinator_execute_transaction ctx cb;
      if accepted then ret tt
      else
        let retry_delay := 100%N in
        sleep_for retry_delay;;
        submit_loop fuel' ctx cb
  end.

(** [if(OracleDB_execute(&db, sql) == 0) info(..) else error(..)]. *)
Definition db_statement (sql on_success on_failure : string) : M unit :=
  do ok <- OracleDB_execute sql;
  if ok then log lvl_info [on_success] else log lvl_error [on_failure].

(** [for(hash_t input_hash : ctx.m_inputs)]. *)
Fixpoint record_inputs (dtx_hex : string) (inputs : list hash_t) : M unit :=
  match inputs with
  | [] => ret tt
  | input_hash :: inputs' =>
      let in_hex := to_hex input_hash in
      db_statement
        ("INSERT INTO admin.input (transactionhash, uhshash) VALUES ('"
           +:+ dtx_hex +:+ "', '" +:+ in_hex +:+ "')")
        "Inserted DTX Inputs into admin.input from controller.cpp"
        "Failed to insert DTX Inputs into admin.input from controller.cpp";;
      db_statement
        ("DELETE FROM admin.uhs_previews where UHS_HASH =  '"
           +:+ in_hex +:+ "'")
        "Removed DTX Inputs into admin.uhs_previews from controller.cpp"
        "Could not remove DTX Inputs into admin.uhs_previews from controller.cpp";;
      record_inputs dtx_hex inputs'
  end.

(** [for(hash_t output_hash : ctx.m_uhs_outputs)]. *)
Fixpoint record_outputs (dtx_hex : string) (outputs : list hash_t)
    : M unit :=
  match outputs with
  | [] => ret tt
  | output_hash :: outputs' =>
      let out_hex := to_hex output_hash in
      db_statement
        ("INSERT INTO admin.output (transactionhash, uhshash) VALUES ('"
           +:+ dtx_hex +:+ "', '" +:+ out_hex +:+ "')")
        "Inserted DTX Outputs into admin.output from controller.cpp"
        "Failed to insert DTX Outputs into admin.output from controller.cpp";;
      db_statement
        ("INSERT INTO admin.uhs_previews (uhshash) VALUES ('"
           +:+ out_hex +:+ "')")
        "Inserted DTX Outputs into admin.uhs_previews from controller.cpp"
        "Failed to insert DTX Outputs into admin.uhs_previews from controller.cpp";;
      record_outputs dtx_hex outputs'
  end.

(** The statements that follow the retry loop. *)
Definition record_transaction (ctx : compact_tx) : M unit :=
  let dtx_string := string_of_list_byte (m_id ctx) in
  log lvl_info ["DTX: " +:+ dtx_string];;
  let dtx_hex := to_hex (m_id ctx) in
  log lvl_info ["DTX HEX: " +:+ dtx_hex];;
  db_statement
    ("INSERT INTO admin.transaction (transactionhash, payee, amt) SELECT tx_hash, payee_to, amount FROM admin.transactionholder WHERE tx_hash = '"
       +:+ dtx_hex +:+ "'")
    "Inserted DTX Hex into admin.transaction from controller.cpp"
    "Failed to insert DTX Hex into admin.transaction from controller.cpp";;
  record_inputs dtx_hex (m_inputs ctx);;
  record_outputs dtx_hex (m_uhs_outputs ctx).

Definition send_compact_tx (fuel : nat) (ctx : compact_tx)
    (result_callback : callback_id) : M unit :=
  let cb := {| cc_res_cb := result_callback |} in
  submit_loop fuel ctx cb;;
  record_transaction ctx.


(** ** Log lines of the transaction path *)

(** ["Rejected (", to_string(validation_err.value()), ")", to_string(tx_id)]. *)
Definition rejected_message (err : tx_error) (id : hash_t) : list string :=
  ["Rejected ("; validation_to_string E err; ")"; to_string E id].

(** ["Accepted", to_string(ctx.m_id)]. *)
Definition accepted_message (ctx : compact_tx) : list string :=
  ["Accepted"; to_string E (m_id ctx)].

(** [to_string(ctx.m_id), "invalid according to remote sentinel"]. *)
Definition remote_invalid_message (ctx : compact_tx) : list string :=
  [to_string E (m_id ctx); "invalid according to remote sentinel"].

(** ** Quorum gathering: [controller::gather_attestations] *)

(** [while(!success)]: draw a peer, skip it when it is in [requested],
    otherwise hand it the transaction together with the lambda that
    captured [requested] and [sentinel_id].  The loop has no bound of its
    own; [fuel] bounds the number of iterations the model follows. *)
Fixpoint gather_loop (fuel : nat) (c : controller) (tx : full_tx)
    (result_callback : callback_id) (ctx : compact_tx)
    (requested : gset N) : M unit :=
  match fuel with
  | 0 => diverge
  | S fuel' =>
      do d <- draw_sentinel c;
      let sentinel_id := d.2 in
      if decide (sentinel_id ∈ requested) then
        gather_loop fuel' c tx result_callback ctx requested
      else
        do success <-
          peer_validate_transaction c d.1 sentinel_id tx
            {| vc_sentinel_id := sentinel_id;
               vc_requested := requested;
               vc_tx := tx;
               vc_result_callback := result_callback;
               vc_ctx := ctx |};
        if success then ret tt
        else gather_loop fuel' c tx result_callback ctx requested
  end.

Definition gather_attestations (fuel : nat) (c : controller) (tx : full_tx)
    (result_callback : callback_id) (ctx : compact_tx)
    (requested : gset N) : M unit :=
  emit (ev_gather ctx requested);;
  if (N.of_nat (size (m_attestations ctx))
        <? m_attestation_threshold (m_opts c))%N then
    gather_loop fuel c tx result_callback ctx requested
  else
    log lvl_debug (accepted_message ctx);;
    send_compact_tx fuel ctx result_callback.

(** [controller::validate_result_handler]. *)
Definition validate_result_handler (fuel : nat) (c : controller)
    (v_res : option attestation) (tx : full_tx)
    (result_callback : callback_id) (ctx : compact_tx)
    (requested : gset N) : M unit :=
  match v_res with
  | None =>
      log lvl_error (remote_invalid_message ctx);;
      call_result_callback result_callback None
  | Some a =>
      let ctx := insert_attestation a ctx in
      gather_attestations fuel c tx result_callback ctx requested
  end.

(** The body of the lambda of [gather_attestations]:
    [auto r = requested; r.insert(sentinel_id);
     validate_result_handler(v_res, tx, result_callback, ctx, r)]. *)
Definition run_validate_closure (fuel : nat) (c : controller)
    (cl : validate_closure) (v_res : option attestation) : M unit :=
  let r := vc_requested cl in
  let r := {[vc_sentinel_id cl]} ∪ r in
  validate_result_handler fuel c v_res (vc_tx cl) (vc_result_callback cl)
    (vc_ctx cl) r.

(** The body of the lambda [cb] of [send_compact_tx]. *)
Definition run_coordinator_closure (cl : coordinator_closure)
    (res : option bool) : M unit :=
  result_handler res (cc_res_cb cl).

(** ** Entry points *)

(** [controller::execute_transaction]. *)
Definition execute_transaction (fuel : nat) (c : controller) (tx : full_tx)
    (result_callback : callback_id) : M bool :=
  let validation_err := check_tx E tx in
  match validation_err with
  | Some err =>
      let tx_id := tx_id E tx in
      log lvl_debug (rejected_message err tx_id);;
      call_result_callback result_callback
        (Some {| m_tx_status := static_invalid;
                 m_tx_error := validation_err |});;
      ret true
  | None =>
      do compact_tx <- compact_tx_of tx;
      do compact_tx <-
        (if (0 <? m_attestation_threshold (m_opts c))%N then
           do attestation <- compact_tx_sign compact_tx (m_privkey c);
           ret (insert_attestation attestation compact_tx)
         else ret compact_tx);
      gather_attestations fuel c tx result_callback compact_tx ∅;;
      ret true
  end.

(** [controller::validate_transaction], the server side of a peer's
    request: the reply is returned next to the function's result. *)
Definition validate_transaction (c : controller) (tx : full_tx)
    : M (bool * option attestation) :=
  match check_tx E tx with
  | Some _ => ret (true, None)
  | None =>
      do compact_tx <- compact_tx_of tx;
      do attestation <- compact_tx_sign compact_tx (m_privkey c);
      ret (true, Some attestation)
  end.

(** ** Replies of the RPC layer *)

(** Modelled from the spec: the RPC clients invoke the callback of an
    accepted request once, with the reply, and drop it (section 4.5: the
    completion callback is invoked exactly once). *)
Definition take_validate_cb (k : nat) : M (option validate_closure) :=
  λ w, Returned (w_validate_cbs w !! k)
         {| w_draws := w_draws w;
            w_coordinator_calls := w_coordinator_calls w;
            w_db_calls := w_db_calls w;
            w_validate_cbs := delete k (w_validate_cbs w);
            w_coordinator_cbs := w_coordinator_cbs w;
            w_trace := w_trace w |}.

Definition take_coordinator_cb (k : nat) : M (option coordinator_closure) :=
  λ w, Returned (w_coordinator_cbs w !! k)
         {| w_draws := w_draws w;
            w_coordinator_calls := w_coordinator_calls w;
            w_db_calls := w_db_calls w;
            w_validate_cbs := w_validate_cbs w;
            w_coordinator_cbs := delete k (w_coordinator_cbs w);
            w_trace := w_trace w |}.

(** A reply to the [k]-th pending request. *)
Inductive reply : Type :=
| peer_reply (k : nat) (v_res : option attestation)
| coordinator_reply (k : nat) (res : option bool).

Definition deliver (fuel : nat) (c : controller) (r : reply) : M unit :=
  match r with
  | peer_reply k v_res =>
      do cl <- take_validate_cb k;
      match cl with
      | Some cl => run_validate_closure fuel c cl v_res
      | None => ret tt
      end
  | coordinator_reply k res =>
      do cl <- take_coordinator_cb k;
      match cl with
      | Some cl => run_coordinator_closure cl res
      | None => ret tt
      end
  end.

(** ** Reading a trace *)

(** A call of [compact_tx::sign]. *)
Definition is_sign (e : event) : bool :=
  match e with ev_sign _ => true | _ => false end.

(** The peers a trace dispatched to, accepted or not. *)
Definition dispatched_peers (t : list event) : list N :=
  omap (λ e, match e with
             | ev_peer_validate i _ _ => Some i
             | _ => None
             end) t.

(** The [requested] sets the entries into [gather_attestations] saw. *)
Definition requested_sequence (t : list event) : list (gset N) :=
  omap (λ e, match e with
             | ev_gather _ r => Some r
             | _ => None
             end) t.

(** The compact transactions handed to the coordinator client. *)
Definition submitted (t : list event) : list (compact_tx * bool) :=
  omap (λ e, match e with
             | ev_coordinator_execute ctx ok => Some (ctx, ok)
             | _ => None
             end) t.

(** The results handed to the callback [cb]. *)
Definition results_for (cb : callback_id) (t : list event)
    : list (option execute_response) :=
  omap (λ e, match e with
             | ev_result_callback cb' r =>
                 if decide (cb' = cb) then Some r else None
             | _ => None
             end) t.

End Controller.

Arguments Returned {full_tx tx_error A} a w.
Arguments Diverged {full_tx tx_error A} w.
Arguments Undefined {full_tx tx_error A} w.

Local Close Scope string_scope.
Local Open Scope list_scope.

(** The world an outcome stopped in. *)
Definition final_world {full_tx tx_error A}
    (o : @outcome full_tx tx_error A) : world :=
  match o with
  | Returned _ w => w
  | Diverged w => w
  | Undefined w => w
  end.

(** [retries ctx k]: [k] rounds of a submission that is not accepted followed
    by the 100 ms pause. *)
Definition retries {full_tx tx_error} (ctx : compact_tx) (k : nat)
    : list (@event full_tx tx_error) :=
  concat (repeat [ev_coordinator_execute ctx false; ev_sleep 100] k).
Arguments retries : simpl never.

(** Events of the reporting code that follows a submission: log lines and
    database statements. *)
Definition is_audit {full_tx tx_error} (e : @event full_tx tx_error) : bool :=
  match e with
  | ev_log _ _ | ev_db_execute _ _ => true
  | _ => false
  end.

(** [w'] is [w] after reporting only: log lines and database statements
    were added to the trace, the database call counter may have moved, and
    nothing else changed. *)
Definition audit_step {full_tx tx_error} (w w' : @world full_tx tx_error)
    : Prop :=
  w_draws w' = w_draws w
  ∧ w_coordinator_calls w' = w_coordinator_calls w
  ∧ w_validate_cbs w' = w_validate_cbs w
  ∧ w_coordinator_cbs w' = w_coordinator_cbs w
  ∧ ∃ evs, w_trace w' = w_trace w ++ evs
           ∧ Forall (λ e, is_audit e = true) evs.

(** A computation that always returns and only reports. *)
Definition audits {full_tx tx_error A} (m : @M full_tx tx_error A) : Prop :=
  ∀ w, ∃ a w', m w = Returned a w' ∧ audit_step w w'.

(** A dispatch of [tx] to a peer outside [requested]. *)
Definition dispatch_to_fresh {full_tx tx_error} (tx : full_tx)
    (requested : gset N) (e : @event full_tx tx_error) : Prop :=
  ∃ i accepted, e = ev_peer_validate i tx accepted ∧ i ∉ requested.

(** An event of [send_compact_tx] for [ctx]: a submission of [ctx], the
    pause between two submissions, or reporting. *)
Definition submission_of {full_tx tx_error} (ctx : compact_tx)
    (e : @event full_tx tx_error) : Prop :=
  (∃ accepted, e = ev_coordinator_execute ctx accepted)
  ∨ e = ev_sleep 100
  ∨ is_audit e = true.

(** The peer index obtained [k] draws after the world [w]. *)
Definition draw_at {full_tx tx_error} (E : @env full_tx tx_error)
    (c : controller) (w : @world full_tx tx_error) (k : nat) : N :=
  uniform_draw (m_dist c) (rand E (w_draws w + k)).

(** Within [n] further draws some peer outside [requested] accepts the
    request, and no draw before it indexes the client vector out of
    range. *)
Definition peer_dispatch_within {full_tx tx_error}
    (E : @env full_tx tx_error) (c : controller) (requested : gset N)
    (w : @world full_tx tx_error) (n : nat) : Prop :=
  ∃ k, k < n
       ∧ (draw_at E c w k ∉ requested)
       ∧ peer_accepts E (w_draws w + k) (draw_at E c w k) = true
       ∧ ∀ j, j ≤ k →
              draw_at E c w j ∈ requested
              ∨ is_Some (m_sentinel_clients c !! N.to_nat (draw_at E c w j)).

(** Within [n] further submissions the coordinator client accepts one. *)
Definition coordinator_accepts_within {full_tx tx_error}
    (E : @env full_tx tx_error) (w : @world full_tx tx_error) (n : nat)
    : Prop :=
  ∃ k, k < n ∧ coordinator_accepts E (w_coordinator_calls w + k) = true.

(** The worlds a controller can be in: it starts, in whatever world [init]
    left, with no request pending at a peer, and every call of
    [execute_transaction] and every reply that returns leads to a further
    world.  A call that does not return leaves the thread inside its loop. *)
Inductive reachable {full_tx tx_error} (E : @env full_tx tx_error)
    (c : controller) : @world full_tx tx_error → Prop :=
| reach_start w : w_validate_cbs w = [] → reachable E c w
| reach_execute w fuel tx cb b w' :
    reachable E c w →
    execute_transaction E fuel c tx cb w = Returned b w' →
    reachable E c w'
| reach_deliver w fuel r w' :
    reachable E c w →
    deliver E fuel c r w = Returned tt w' →
    reachable E c w'.

(** The closure captured a peer that its [requested] set does not hold. *)
Definition fresh_peer {full_tx} (cl : @validate_closure full_tx) : Prop :=
  vc_sentinel_id cl ∉ vc_requested cl.

(** ** Further readings of a trace and of a configuration *)


(** The statements a trace sent to the database. *)
Definition db_statements_of {full_tx tx_error}
    (t : list (@event full_tx tx_error)) : list string :=
  omap (λ e, match e with ev_db_execute sql _ => Some sql | _ => None end) t.

(** The compact transactions a trace signed. *)
Definition signed_of {full_tx tx_error} (t : list (@event full_tx tx_error))
    : list compact_tx :=
  omap (λ e, match e with ev_sign ctx => Some ctx | _ => None end) t.

(** The endpoints of the list that differ from [self]. *)
Definition other_endpoints (self : endpoint_t) (eps : list endpoint_t)
    : list endpoint_t :=
  List.filter (λ ep, negb (bool_decide (ep = self))) eps.

(** One client per endpoint, started or not as its [init(false)] said. *)
Definition clients_for {full_tx tx_error} (E : @env full_tx tx_error)
    (eps : list endpoint_t) : list sentinel_client :=
  map (λ ep, {| cl_endpoint := ep; cl_started := client_init_ok E ep |}) eps.

(** The candidate range covers the client vector exactly. *)
Definition dist_covers_clients (c : controller) : Prop :=
  m_sentinel_clients c ≠ []
  ∧ m_dist c = (0, N.of_nat (length (m_sentinel_clients c)) - 1)%N.

(** What a pending peer request remembers: a transaction the validator
    accepts, its compact form with some attestations added, and fewer
    attestations than the threshold. *)
Definition pending_request_ok {full_tx tx_error} (E : @env full_tx tx_error)
    (c : controller) (cl : @validate_closure full_tx) : Prop :=
  check_tx E (vc_tx cl) = None
  ∧ m_id (vc_ctx cl) = tx_id E (vc_tx cl)
  ∧ m_inputs (vc_ctx cl) = tx_inputs E (vc_tx cl)
  ∧ m_uhs_outputs (vc_ctx cl) = tx_uhs_outputs E (vc_tx cl)
  ∧ (N.of_nat (size (m_attestations (vc_ctx cl)))
     < m_attestation_threshold (m_opts c))%N.

(** The status the caller is to receive for a coordinator outcome. *)
Definition translated {tx_error} (res : option bool)
    : option (@execute_response tx_error) :=
  match res with
  | Some true => Some {| m_tx_status := confirmed; m_tx_error := None |}
  | Some false => Some {| m_tx_status := state_invalid; m_tx_error := None |}
  | None => None
  end.


(** ** A concrete deployment, used to run the model *)

Module Sample.

Definition ep (n : N) : endpoint_t := ("sentinel"%string, n).
Definition coordinator_ep (n : N) : endpoint_t :=
  ("coordinator"%string, n).

Definition key0 : privkey_t := [x2a].

(** Three sentinels, two coordinators, quorum of two. *)
Definition opts : options :=
  {| m_sentinel_endpoints := [ep 0; ep 1; ep 2];
     m_coordinator_endpoints := [coordinator_ep 0; coordinator_ep 1];
     m_sentinel_private_keys := {[0%N := key0]};
     m_attestation_threshold := 2 |}.

(** A single sentinel that must attest. *)
Definition lonely_opts : options :=
  {| m_sentinel_endpoints := [ep 0];
     m_coordinator_endpoints := [coordinator_ep 0];
     m_sentinel_private_keys := {[0%N := key0]};
     m_attestation_threshold := 1 |}.

(** No attestation required. *)
Definition open_opts : options :=
  {| m_sentinel_endpoints := [ep 0; ep 1];
     m_coordinator_endpoints := [coordinator_ep 0];
     m_sentinel_private_keys := ∅;
     m_attestation_threshold := 0 |}.

(** Transactions are numbers; transaction 0 is structurally invalid with
    error 7.  The coordinator refuses the first three submissions. *)
Definition E : @env nat nat :=
  {| check_tx := λ tx, match tx with 0 => Some 7 | S _ => None end;
     tx_id := λ tx, [x0a; xff];
     tx_inputs := λ tx, [[x01]];
     tx_uhs_outputs := λ tx, [[x02]];
     sign := λ ctx k, (k, m_id ctx);
     pubkey_from_privkey := λ k, k;
     to_string := to_hex;
     validation_to_string := λ err, "violation"%string;
     rand := λ n, N.of_nat n;
     peer_accepts := λ n i, true;
     coordinator_accepts := λ n, (3 <=? n)%nat;
     db_execute_ok := λ n, true;
     db_init_ok := true;
     db_connect_ok := true;
     coordinator_init_ok := λ n, true;
     client_init_ok := λ e, true;
     rpc_server_init_ok := true |}.

(** The controller of sentinel 0 after [init]. *)
Definition c : controller :=
  {| m_sentinel_id := 0;
     m_opts := opts;
     m_coordinator_client := coordinator_ep 0;
     m_privkey := key0;
     m_sentinel_clients :=
       [{| cl_endpoint := ep 1; cl_started := true |};
        {| cl_endpoint := ep 2; cl_started := true |}];
     m_dist := (0, 1)%N |}.

Definition open_c : controller :=
  {| m_sentinel_id := 0;
     m_opts := open_opts;
     m_coordinator_client := coordinator_ep 0;
     m_privkey := repeat x00 32;
     m_sentinel_clients := [{| cl_endpoint := ep 1; cl_started := true |}];
     m_dist := (0, 0)%N |}.

Definition ctx : compact_tx :=
  {| m_id := [x0a; xff]; m_inputs := [[x01]]; m_uhs_outputs := [[x02]];
     m_attestations := ∅ |}.


(** [2 ^ 32 + 1] coordinator endpoints: number 0, then number 1 repeated. *)
Definition crowded_opts : options :=
  {| m_sentinel_endpoints := [ep 0];
     m_coordinator_endpoints :=
       coordinator_ep 0 :: coordinator_ep 1
       :: repeat (coordinator_ep 1) (N.to_nat (2 ^ 32 - 1));
     m_sentinel_private_keys := {[0%N := key0]};
     m_attestation_threshold := 1 |}.

(** The single sentinel as its constructor leaves it. *)
Definition lonely_c : controller :=
  {| m_sentinel_id := 0;
     m_opts := lonely_opts;
     m_coordinator_client := coordinator_ep 0;
     m_privkey := repeat x00 32;
     m_sentinel_clients := [];
     m_dist := (0, 2 ^ 64 - 1)%N |}.

(** The world after [execute_transaction] on transaction 1 with callback
    3: the sentinel has attested, and peer 0 holds the closure below. *)
Definition after_execute : @world nat nat :=
  final_world (execute_transaction E 1 c 1 3 empty_world).

Definition first_closure : @validate_closure nat :=
  {| vc_sentinel_id := 0;
     vc_requested := ∅;
     vc_tx := 1;
     vc_result_callback := 3;
     vc_ctx :=
       insert_attestation (sign E (compact_tx_from E 1) key0)
         (compact_tx_from E 1) |}.

Definition peer_attestation : attestation := ([x05], [x06]).

(** Sentinel 0 of [opts] as its constructor leaves it, and the world its
    [init] ends in. *)
Definition c0 : controller :=
  {| m_sentinel_id := 0;
     m_opts := opts;
     m_coordinator_client := coordinator_ep 0;
     m_privkey := repeat x00 32;
     m_sentinel_clients := [];
     m_dist := (0, 2 ^ 64 - 1)%N |}.

Definition after_init : @world nat nat := final_world (init E c0 empty_world).

(** The single sentinel after [init], asked for a quorum of two. *)
Definition stranded_c : controller :=
  {| m_sentinel_id := 0;
     m_opts :=
       {| m_sentinel_endpoints := [ep 0];
          m_coordinator_endpoints := [coordinator_ep 0];
          m_sentinel_private_keys := {[0%N := key0]};
          m_attestation_threshold := 2 |};
     m_coordinator_client := coordinator_ep 0;
     m_privkey := key0;
     m_sentinel_clients := [];
     m_dist := (0, 0)%N |}.

(** A configuration without a key for sentinel 0 that requires attestation,
    and sentinel 0 of it. *)
Definition keyless_c : controller :=
  {| m_sentinel_id := 0;
     m_opts :=
       {| m_sentinel_endpoints := [ep 0; ep 1];
          m_coordinator_endpoints := [coordinator_ep 0];
          m_sentinel_private_keys := ∅;
          m_attestation_threshold := 1 |};
     m_coordinator_client := coordinator_ep 0;
     m_privkey := repeat x00 32;
     m_sentinel_clients := [];
     m_dist := (0, 2 ^ 64 - 1)%N |}.

(** The collaborators of [E] with a coordinator client that never accepts a
    submission. *)
Definition deaf_E : @env nat nat :=
  {| check_tx := check_tx E;
     tx_id := tx_id E;
     tx_inputs := tx_inputs E;
     tx_uhs_outputs := tx_uhs_outputs E;
     sign := sign E;
     pubkey_from_privkey := pubkey_from_privkey E;
     to_string := to_string E;
     validation_to_string := validation_to_string E;
     rand := rand E;
     peer_accepts := peer_accepts E;
     coordinator_accepts := λ n, false;
     db_execute_ok := db_execute_ok E;
     db_init_ok := db_init_ok E;
     db_connect_ok := db_connect_ok E;
     coordinator_init_ok := coordinator_init_ok E;
     client_init_ok := client_init_ok E;
     rpc_server_init_ok := rpc_server_init_ok E |}.


End Sample.

Example sample_init :
  ∃ c0 w, controller_new 0 Sample.opts = inl c0
          ∧ init Sample.E c0 empty_world = Returned (true, Sample.c) w.
Proof. do 2 eexists. split; vm_compute; reflexivity. Qed.

Example sample_hex : to_hex [x0a; xff; x10] = "0AFF10"%string.
Proof. reflexivity. Qed.

(** Transaction 1 at sentinel 0: peer 0 attests, which completes the quorum
    of two; the coordinator accepts the fourth submission and later reports
    [true]; the caller receives [confirmed], once. *)
Example sample_confirmed :
  ∃ w1 w2,
    deliver Sample.E 4 Sample.c
      (peer_reply 0 (Some Sample.peer_attestation)) Sample.after_execute
    = Returned tt w1
    ∧ deliver Sample.E 0 Sample.c (coordinator_reply 0 (Some true)) w1
      = Returned tt w2
    ∧ dispatched_peers (w_trace w2) = [0%N]
    ∧ map snd (submitted (w_trace w2)) = [false; false; false; true]
    ∧ results_for 3 (w_trace w2)
      = [Some {| m_tx_status := confirmed; m_tx_error := None |}].
Proof.
  do 2 eexists. split; [vm_compute; reflexivity|].
  split; [vm_compute; reflexivity|].
  split; [vm_compute; reflexivity|].
  split; vm_compute; reflexivity.
Qed.

(** * Properties *)

(** ** The coordinator retry loop *)

Section SubmitFacts.

Context {full_tx tx_error : Type}.
Variable E : @env full_tx tx_error.
Implicit Types (w : @world full_tx tx_error) (ctx : compact_tx).

Lemma coordinator_execute_transaction_eq ctx cb w :
  coordinator_execute_transaction E ctx cb w
  = Returned (coordinator_accepts E (w_coordinator_calls w))
      {| w_draws := w_draws w;
         w_coordinator_calls := S (w_coordinator_calls w);
         w_db_calls := w_db_calls w;
         w_validate_cbs := w_validate_cbs w;
         w_coordinator_cbs :=
           if coordinator_accepts E (w_coordinator_calls w)
           then w_coordinator_cbs w ++ [cb] else w_coordinator_cbs w;
         w_trace :=
           w_trace w
           ++ [ev_coordinator_execute ctx
                 (coordinator_accepts E (w_coordinator_calls w))] |}.
Proof.
  unfold coordinator_execute_transaction, bind, tick_coordinator_calls,
    emit, hold_coordinator_cb, ret; simpl.
  destruct (coordinator_accepts E (w_coordinator_calls w)); reflexivity.
Qed.

Lemma retries_S ctx k :
  @retries full_tx tx_error ctx (S k)
  = [ev_coordinator_execute ctx false; ev_sleep 100] ++ retries ctx k.
Proof. reflexivity. Qed.

Lemma submit_loop_S fuel ctx cb w :
  submit_loop E (S fuel) ctx cb w
  = if coordinator_accepts E (w_coordinator_calls w)
    then
      Returned tt
        {| w_draws := w_draws w;
           w_coordinator_calls := S (w_coordinator_calls w);
           w_db_calls := w_db_calls w;
           w_validate_cbs := w_validate_cbs w;
           w_coordinator_cbs := w_coordinator_cbs w ++ [cb];
           w_trace := w_trace w ++ [ev_coordinator_execute ctx true] |}
    else
      submit_loop E fuel ctx cb
        {| w_draws := w_draws w;
           w_coordinator_calls := S (w_coordinator_calls w);
           w_db_calls := w_db_calls w;
           w_validate_cbs := w_validate_cbs w;
           w_coordinator_cbs := w_coordinator_cbs w;
           w_trace :=
             w_trace w ++ [ev_coordinator_execute ctx false; ev_sleep 100] |}.
Proof.
  cbn [submit_loop]. unfold bind at 1.
  rewrite coordinator_execute_transaction_eq.
  destruct (coordinator_accepts E (w_coordinator_calls w)); [reflexivity|].
  unfold bind, sleep_for, emit; cbn.
  rewrite <- app_assoc. reflexivity.
Qed.

(** While the coordinator client refuses, the loop is still running after
    any number of rounds, having submitted once and slept once per
    round. *)
Lemma submit_loop_refused fuel ctx cb w :
  (∀ j, j < fuel → coordinator_accepts E (w_coordinator_calls w + j) = false) →
  submit_loop E fuel ctx cb w
  = Diverged
      {| w_draws := w_draws w;
         w_coordinator_calls := w_coordinator_calls w + fuel;
         w_db_calls := w_db_calls w;
         w_validate_cbs := w_validate_cbs w;
         w_coordinator_cbs := w_coordinator_cbs w;
         w_trace := w_trace w ++ retries ctx fuel |}.
Proof.
  revert w. induction fuel as [|fuel IH]; intros w Hno.
  - destruct w; cbn. unfold diverge, retries. cbn.
    rewrite Nat.add_0_r, app_nil_r. reflexivity.
  - rewrite submit_loop_S.
    pose proof (Hno 0 ltac:(lia)) as H0. rewrite Nat.add_0_r in H0.
    rewrite H0, IH; cbn [w_draws w_coordinator_calls w_db_calls
                           w_validate_cbs w_coordinator_cbs w_trace].
    + rewrite retries_S, <- !app_assoc.
      do 2 f_equal. lia.
    + intros j Hj. rewrite <- (Hno (S j)) by lia. f_equal. lia.
Qed.

(** After [k] refusals the first accepted submission ends the loop. *)
Lemma submit_loop_accepted k fuel ctx cb w :
  (∀ j, j < k → coordinator_accepts E (w_coordinator_calls w + j) = false) →
  coordinator_accepts E (w_coordinator_calls w + k) = true →
  k < fuel →
  submit_loop E fuel ctx cb w
  = Returned tt
      {| w_draws := w_draws w;
         w_coordinator_calls := w_coordinator_calls w + S k;
         w_db_calls := w_db_calls w;
         w_validate_cbs := w_validate_cbs w;
         w_coordinator_cbs := w_coordinator_cbs w ++ [cb];
         w_trace :=
           w_trace w ++ retries ctx k ++ [ev_coordinator_execute ctx true] |}.
Proof.
  revert fuel w. induction k as [|k IH]; intros fuel w Hno Hyes Hfuel;
    (destruct fuel as [|fuel]; [lia|]); rewrite submit_loop_S.
  - rewrite Nat.add_0_r in Hyes. rewrite Hyes.
    do 2 f_equal. lia.
  - pose proof (Hno 0 ltac:(lia)) as H0. rewrite Nat.add_0_r in H0.
    rewrite H0, (IH fuel);
      cbn [w_draws w_coordinator_calls w_db_calls
             w_validate_cbs w_coordinator_cbs w_trace]; [| | |lia].
    + rewrite retries_S, <- !app_assoc.
      do 2 f_equal. lia.
    + intros j Hj. rewrite <- (Hno (S j)) by lia. f_equal. lia.
    + rewrite <- Hyes. f_equal. lia.
Qed.

End SubmitFacts.

(** ** Reporting *)

Section AuditFacts.

Context {full_tx tx_error : Type}.
Variable E : @env full_tx tx_error.
Implicit Types (w : @world full_tx tx_error).

Lemma audit_step_refl w : audit_step w w.
Proof.
  repeat split. exists []. rewrite app_nil_r. split; [reflexivity|constructor].
Qed.

Lemma audit_step_trans w1 w2 w3 :
  audit_step w1 w2 → audit_step w2 w3 → audit_step w1 w3.
Proof.
  intros (Hd & Hc & Hv & Hk & evs & Ht & Ha)
         (Hd' & Hc' & Hv' & Hk' & evs' & Ht' & Ha').
  repeat split; try congruence.
  exists (evs ++ evs'). split.
  - rewrite Ht', Ht, app_assoc. reflexivity.
  - apply Forall_app; split; assumption.
Qed.

Lemma audits_ret {A} (a : A) : audits (@ret full_tx tx_error A a).
Proof. intros w. exists a, w. split; [reflexivity|apply audit_step_refl]. Qed.

Lemma audits_bind {A B} (m : @M full_tx tx_error A)
    (k : A → @M full_tx tx_error B) :
  audits m → (∀ a, audits (k a)) → audits (bind m k).
Proof.
  intros Hm Hk w. destruct (Hm w) as (a & w1 & Hw1 & Hs1).
  destruct (Hk a w1) as (b & w2 & Hw2 & Hs2).
  exists b, w2. unfold bind. rewrite Hw1. split; [assumption|].
  eapply audit_step_trans; eassumption.
Qed.

Lemma audits_log l msg : audits (@log full_tx tx_error l msg).
Proof.
  intros w. eexists tt, _. split; [reflexivity|].
  repeat split. eexists. split; [reflexivity|].
  repeat constructor.
Qed.

Lemma audits_OracleDB_execute sql : audits (OracleDB_execute E sql).
Proof.
  intros w. eexists _, _. split; [cbv; reflexivity|].
  repeat split. eexists [_]. split; [reflexivity|].
  repeat constructor.
Qed.

Lemma audits_db_statement sql ok ko : audits (db_statement E sql ok ko).
Proof.
  apply audits_bind; [apply audits_OracleDB_execute|].
  intros []; apply audits_log.
Qed.

Lemma audits_record_inputs dtx_hex inputs :
  audits (record_inputs E dtx_hex inputs).
Proof.
  induction inputs as [|h inputs IH]; [apply audits_ret|].
  cbn [record_inputs].
  repeat (apply audits_bind; [apply audits_db_statement|intros _]).
  exact IH.
Qed.

Lemma audits_record_outputs dtx_hex outputs :
  audits (record_outputs E dtx_hex outputs).
Proof.
  induction outputs as [|h outputs IH]; [apply audits_ret|].
  cbn [record_outputs].
  repeat (apply audits_bind; [apply audits_db_statement|intros _]).
  exact IH.
Qed.

Lemma audits_record_transaction ctx : audits (record_transaction E ctx).
Proof.
  unfold record_transaction.
  repeat (apply audits_bind; [apply audits_log|intros _]).
  apply audits_bind; [apply audits_db_statement|intros _].
  apply audits_bind; [apply audits_record_inputs|intros _].
  apply audits_record_outputs.
Qed.

End AuditFacts.

(** ** Events read off a trace *)

Section TraceFacts.

Context {full_tx tx_error : Type}.
Implicit Types (evs : list (@event full_tx tx_error)).

Lemma omap_Forall_None {B} (f : @event full_tx tx_error → option B)
    (P : @event full_tx tx_error → Prop) evs :
  Forall P evs → (∀ e, P e → f e = None) → omap f evs = [].
Proof.
  intros HP Hf. induction HP as [|e evs He _ IH]; [reflexivity|].
  cbn. rewrite (Hf e He). exact IH.
Qed.

Lemma filter_Forall_false (g : @event full_tx tx_error → bool)
    (P : @event full_tx tx_error → Prop) evs :
  Forall P evs → (∀ e, P e → g e = false) → List.filter g evs = [].
Proof.
  intros HP Hg. induction HP as [|e evs He _ IH]; [reflexivity|].
  cbn. rewrite (Hg e He). exact IH.
Qed.

Lemma dispatched_peers_fresh tx r evs :
  Forall (dispatch_to_fresh tx r) evs →
  Forall (λ i, i ∉ r) (dispatched_peers evs).
Proof.
  intros HP. induction HP as [|e evs (i & ok & -> & Hi) _ IH];
    [constructor|].
  cbn. constructor; assumption.
Qed.

Lemma submitted_of ctx evs :
  Forall (submission_of ctx) evs →
  Forall (λ s : compact_tx * bool, s.1 = ctx) (submitted evs).
Proof.
  intros HP. induction HP as [|e evs He _ IH]; [constructor|].
  destruct He as [[ok ->]|[->|He]]; cbn.
  - constructor; [reflexivity|exact IH].
  - exact IH.
  - destruct e; try discriminate He; exact IH.
Qed.

Lemma audit_is_submission ctx evs :
  Forall (λ e, is_audit e = true) evs → Forall (submission_of ctx) evs.
Proof.
  intros H. eapply Forall_impl; [exact H|].
  intros e He. right; right; exact He.
Qed.

Lemma retries_are_submissions ctx k :
  Forall (submission_of ctx) (@retries full_tx tx_error ctx k).
Proof.
  induction k as [|k IH]; [constructor|].
  unfold retries in *. cbn.
  constructor; [left; eexists; reflexivity|].
  constructor; [right; left; reflexivity|exact IH].
Qed.

End TraceFacts.

(** ** What a submission and a gathering step can do *)

Section GatherFacts.

Context {full_tx tx_error : Type}.
Variable E : @env full_tx tx_error.
Implicit Types (w : @world full_tx tx_error) (ctx : compact_tx)
  (r : gset N) (tx : full_tx) (evs : list (@event full_tx tx_error)).

Lemma submit_loop_events fuel ctx cb w :
  w_draws (final_world (submit_loop E fuel ctx cb w)) = w_draws w
  ∧ w_validate_cbs (final_world (submit_loop E fuel ctx cb w))
    = w_validate_cbs w
  ∧ ∃ evs, w_trace (final_world (submit_loop E fuel ctx cb w))
           = w_trace w ++ evs
           ∧ Forall (submission_of ctx) evs.
Proof.
  revert w. induction fuel as [|fuel IH]; intros w.
  - cbn. repeat split. exists []. rewrite app_nil_r.
    split; [reflexivity|constructor].
  - rewrite submit_loop_S.
    destruct (coordinator_accepts E (w_coordinator_calls w)).
    + cbn. repeat split. eexists. split; [reflexivity|].
      constructor; [left; eexists; reflexivity|constructor].
    + match goal with |- context [submit_loop E fuel ctx cb ?w1] =>
        destruct (IH w1) as (Hd & Hv & evs & Ht & Hs) end.
      cbn in Hd, Hv, Ht. repeat split; [exact Hd|exact Hv|].
      eexists. rewrite Ht, <- app_assoc. split; [reflexivity|].
      apply Forall_app. split; [|exact Hs].
      constructor; [left; eexists; reflexivity|].
      constructor; [right; left; reflexivity|constructor].
Qed.

Lemma send_compact_tx_events fuel ctx cb w :
  w_draws (final_world (send_compact_tx E fuel ctx cb w)) = w_draws w
  ∧ w_validate_cbs (final_world (send_compact_tx E fuel ctx cb w))
    = w_validate_cbs w
  ∧ ∃ evs, w_trace (final_world (send_compact_tx E fuel ctx cb w))
           = w_trace w ++ evs
           ∧ Forall (submission_of ctx) evs.
Proof.
  unfold send_compact_tx, bind.
  destruct (submit_loop_events fuel ctx {| cc_res_cb := cb |} w)
    as (Hd & Hv & evs & Ht & Hs).
  destruct (submit_loop E fuel ctx {| cc_res_cb := cb |} w) as [[] w1|w1|w1];
    cbn in Hd, Hv, Ht; cbn [final_world];
    try (repeat split; [exact Hd|exact Hv|exists evs; split; assumption]).
  destruct (audits_record_transaction E ctx w1)
    as ([] & w2 & -> & Hd2 & _ & Hv2 & _ & evs2 & Ht2 & Hs2).
  cbn [final_world]. repeat split; [congruence|congruence|].
  exists (evs ++ evs2). rewrite Ht2, Ht, app_assoc. split; [reflexivity|].
  apply Forall_app. split; [exact Hs|].
  apply audit_is_submission. exact Hs2.
Qed.

(** One round of the dispatch loop. *)
Lemma gather_loop_S fuel c tx cb ctx r w :
  gather_loop E (S fuel) c tx cb ctx r w
  = let i := uniform_draw (m_dist c) (rand E (w_draws w)) in
    if decide (i ∈ r) then
      gather_loop E fuel c tx cb ctx r
        {| w_draws := S (w_draws w);
           w_coordinator_calls := w_coordinator_calls w;
           w_db_calls := w_db_calls w;
           w_validate_cbs := w_validate_cbs w;
           w_coordinator_cbs := w_coordinator_cbs w;
           w_trace := w_trace w |}
    else
      match m_sentinel_clients c !! N.to_nat i with
      | None =>
          Undefined
            {| w_draws := S (w_draws w);
               w_coordinator_calls := w_coordinator_calls w;
               w_db_calls := w_db_calls w;
               w_validate_cbs := w_validate_cbs w;
               w_coordinator_cbs := w_coordinator_cbs w;
               w_trace := w_trace w |}
      | Some _ =>
          if peer_accepts E (w_draws w) i then
            Returned tt
              {| w_draws := S (w_draws w);
                 w_coordinator_calls := w_coordinator_calls w;
                 w_db_calls := w_db_calls w;
                 w_validate_cbs :=
                   w_validate_cbs w
                   ++ [{| vc_sentinel_id := i; vc_requested := r;
                          vc_tx := tx; vc_result_callback := cb;
                          vc_ctx := ctx |}];
                 w_coordinator_cbs := w_coordinator_cbs w;
                 w_trace := w_trace w ++ [ev_peer_validate i tx true] |}
          else
            gather_loop E fuel c tx cb ctx r
              {| w_draws := S (w_draws w);
                 w_coordinator_calls := w_coordinator_calls w;
                 w_db_calls := w_db_calls w;
                 w_validate_cbs := w_validate_cbs w;
                 w_coordinator_cbs := w_coordinator_cbs w;
                 w_trace := w_trace w ++ [ev_peer_validate i tx false] |}
      end.
Proof.
  cbn [gather_loop].
  unfold bind at 1. unfold draw_sentinel, bind, tick_draws, ret. cbn.
  destruct (decide (uniform_draw (m_dist c) (rand E (w_draws w)) ∈ r));
    [reflexivity|].
  unfold peer_validate_transaction.
  destruct (m_sentinel_clients c
              !! N.to_nat (uniform_draw (m_dist c) (rand E (w_draws w))));
    [|reflexivity].
  unfold bind, emit, hold_validate_cb, ret. cbn.
  destruct (peer_accepts E (w_draws w)
              (uniform_draw (m_dist c) (rand E (w_draws w)))); reflexivity.
Qed.

(** Whatever the loop does, it only dispatches to peers outside
    [requested], and when it returns the accepting peer holds one new
    closure, which captured [requested] itself. *)
Lemma gather_loop_events fuel c tx cb ctx r w :
  w_coordinator_cbs (final_world (gather_loop E fuel c tx cb ctx r w))
  = w_coordinator_cbs w
  ∧ (∃ evs, w_trace (final_world (gather_loop E fuel c tx cb ctx r w))
            = w_trace w ++ evs
            ∧ Forall (dispatch_to_fresh tx r) evs)
  ∧ match gather_loop E fuel c tx cb ctx r w with
    | Returned _ w' =>
        ∃ i, (i ∉ r)
             ∧ w_validate_cbs w'
               = w_validate_cbs w
                 ++ [{| vc_sentinel_id := i; vc_requested := r;
                        vc_tx := tx; vc_result_callback := cb;
                        vc_ctx := ctx |}]
    | Diverged w' | Undefined w' => w_validate_cbs w' = w_validate_cbs w
    end.
Proof.
  revert w. induction fuel as [|fuel IH]; intros w.
  - cbn. repeat split. exists []. rewrite app_nil_r.
    split; [reflexivity|constructor].
  - rewrite gather_loop_S. cbv zeta.
    set (i := uniform_draw (m_dist c) (rand E (w_draws w))).
    destruct (decide (i ∈ r)) as [Hin|Hout].
    { match goal with |- context [gather_loop E fuel c tx cb ctx r ?w1] =>
        destruct (IH w1) as (Hk & (evs & Ht & Hs) & Hv) end.
      cbn in Hk, Ht. split; [exact Hk|]. split; [eauto|].
      destruct (gather_loop E fuel c tx cb ctx r _); exact Hv. }
    destruct (m_sentinel_clients c !! N.to_nat i).
    2:{ cbn. repeat split. exists []. rewrite app_nil_r.
        split; [reflexivity|constructor]. }
    destruct (peer_accepts E (w_draws w) i).
    { cbn. split; [reflexivity|]. split.
      - eexists. split; [reflexivity|].
        constructor; [|constructor]. exists i, true. split; [reflexivity|assumption].
      - exists i. split; [assumption|reflexivity]. }
    match goal with |- context [gather_loop E fuel c tx cb ctx r ?w1] =>
      destruct (IH w1) as (Hk & (evs & Ht & Hs) & Hv) end.
    cbn in Hk, Ht. split; [exact Hk|]. split.
    + eexists. rewrite Ht, <- app_assoc. split; [reflexivity|].
      constructor; [|exact Hs]. exists i, false. split; [reflexivity|assumption].
    + destruct (gather_loop E fuel c tx cb ctx r _); exact Hv.
Qed.

Lemma gather_attestations_eq fuel c tx cb ctx r w :
  gather_attestations E fuel c tx cb ctx r w
  = if (N.of_nat (size (m_attestations ctx))
          <? m_attestation_threshold (m_opts c))%N
    then
      gather_loop E fuel c tx cb ctx r
        {| w_draws := w_draws w;
           w_coordinator_calls := w_coordinator_calls w;
           w_db_calls := w_db_calls w;
           w_validate_cbs := w_validate_cbs w;
           w_coordinator_cbs := w_coordinator_cbs w;
           w_trace := w_trace w ++ [ev_gather ctx r] |}
    else
      send_compact_tx E fuel ctx cb
        {| w_draws := w_draws w;
           w_coordinator_calls := w_coordinator_calls w;
           w_db_calls := w_db_calls w;
           w_validate_cbs := w_validate_cbs w;
           w_coordinator_cbs := w_coordinator_cbs w;
           w_trace :=
             w_trace w
             ++ [ev_gather ctx r; ev_log lvl_debug (accepted_message E ctx)] |}.
Proof.
  unfold gather_attestations, bind, log, emit.
  destruct (N.of_nat (size (m_attestations ctx))
              <? m_attestation_threshold (m_opts c))%N; cbn;
    [reflexivity|].
  rewrite <- app_assoc. reflexivity.
Qed.

Lemma submissions_make_no_request ctx evs :
  Forall (submission_of ctx) evs →
  requested_sequence evs = [] ∧ dispatched_peers evs = [].
Proof.
  intros Hs. split; (eapply omap_Forall_None; [exact Hs|]);
    intros e [[ok ->]|[->|He]]; try reflexivity;
    destruct e; try discriminate He; reflexivity.
Qed.

Lemma dispatches_make_no_request tx r evs :
  Forall (dispatch_to_fresh tx r) evs → requested_sequence evs = [].
Proof.
  intros Hs. eapply omap_Forall_None; [exact Hs|].
  intros e (j & ok & -> & _). reflexivity.
Qed.

(** An entry into [gather_attestations] records [requested], dispatches
    only to peers outside it, and leaves at most one new closure, which
    captured [requested] and a peer outside it. *)
Lemma gather_attestations_step fuel c tx cb ctx r w :
  ∃ evs new,
    w_trace (final_world (gather_attestations E fuel c tx cb ctx r w))
    = w_trace w ++ ev_gather ctx r :: evs
    ∧ requested_sequence evs = []
    ∧ Forall (λ i, i ∉ r) (dispatched_peers evs)
    ∧ w_validate_cbs (final_world (gather_attestations E fuel c tx cb ctx r w))
      = w_validate_cbs w ++ new
    ∧ length new ≤ 1
    ∧ Forall (λ cl, vc_requested cl = r ∧ vc_sentinel_id cl ∉ r) new.
Proof.
  rewrite gather_attestations_eq.
  destruct (N.of_nat (size (m_attestations ctx))
              <? m_attestation_threshold (m_opts c))%N.
  - match goal with |- context [gather_loop E fuel c tx cb ctx r ?w1] =>
      destruct (gather_loop_events fuel c tx cb ctx r w1)
        as (_ & (evs & Ht & Hs) & Hv) end.
    cbn in Ht. exists evs.
    destruct (gather_loop E fuel c tx cb ctx r _) as [[] w'|w'|w'];
      cbn [final_world] in *; cbn in Hv.
    + destruct Hv as (i & Hi & Hv). eexists [_].
      rewrite Ht, Hv, <- app_assoc. repeat split.
      * eapply dispatches_make_no_request; exact Hs.
      * eapply dispatched_peers_fresh; exact Hs.
      * cbn. lia.
      * repeat constructor. exact Hi.
    + exists []. rewrite Ht, Hv, <- app_assoc, app_nil_r.
      repeat split.
      * eapply dispatches_make_no_request; exact Hs.
      * eapply dispatched_peers_fresh; exact Hs.
      * cbn. lia.
      * constructor.
    + exists []. rewrite Ht, Hv, <- app_assoc, app_nil_r.
      repeat split.
      * eapply dispatches_make_no_request; exact Hs.
      * eapply dispatched_peers_fresh; exact Hs.
      * cbn. lia.
      * constructor.
  - match goal with |- context [send_compact_tx E fuel ctx cb ?w1] =>
      destruct (send_compact_tx_events fuel ctx cb w1)
        as (_ & Hv & evs & Ht & Hs) end.
    cbn in Hv, Ht. destruct (submissions_make_no_request ctx evs Hs) as [Hr Hd].
    exists (ev_log lvl_debug (accepted_message E ctx) :: evs), [].
    rewrite Ht, Hv, <- app_assoc, app_nil_r. repeat split.
    + cbn. exact Hr.
    + change (dispatched_peers
                (ev_log lvl_debug (accepted_message E ctx) :: evs))
        with (dispatched_peers evs).
      rewrite Hd. constructor.
    + cbn. lia.
    + constructor.
Qed.

Lemma size_insert_fresh (i : N) r : i ∉ r → size ({[i]} ∪ r) = S (size r).
Proof.
  intros Hi. rewrite size_union by set_solver.
  rewrite size_singleton. reflexivity.
Qed.

(** A signed reply resumes the gathering with the captured set extended
    by the captured peer. *)
Lemma deliver_attestation fuel c k a cl w :
  w_validate_cbs w !! k = Some cl →
  deliver E fuel c (peer_reply k (Some a)) w
  = gather_attestations E fuel c (vc_tx cl) (vc_result_callback cl)
      (insert_attestation a (vc_ctx cl))
      ({[vc_sentinel_id cl]} ∪ vc_requested cl)
      {| w_draws := w_draws w;
         w_coordinator_calls := w_coordinator_calls w;
         w_db_calls := w_db_calls w;
         w_validate_cbs := delete k (w_validate_cbs w);
         w_coordinator_cbs := w_coordinator_cbs w;
         w_trace := w_trace w |}.
Proof.
  intros Hk. unfold deliver, bind, take_validate_cb. rewrite Hk.
  reflexivity.
Qed.

(** A reply of invalidity ends the transaction with an absent result. *)
Lemma deliver_invalidation fuel c k cl w :
  w_validate_cbs w !! k = Some cl →
  deliver E fuel c (peer_reply k None) w
  = Returned tt
      {| w_draws := w_draws w;
         w_coordinator_calls := w_coordinator_calls w;
         w_db_calls := w_db_calls w;
         w_validate_cbs := delete k (w_validate_cbs w);
         w_coordinator_cbs := w_coordinator_cbs w;
         w_trace :=
           w_trace w
           ++ [ev_log lvl_error (remote_invalid_message E (vc_ctx cl));
               ev_result_callback (vc_result_callback cl) None] |}.
Proof.
  intros Hk. unfold deliver, bind, take_validate_cb. rewrite Hk.
  cbn. unfold call_result_callback, emit. cbn.
  rewrite <- app_assoc. reflexivity.
Qed.

End GatherFacts.

(** ** The entry point and the worlds it reaches *)

Section ExecuteFacts.

Context {full_tx tx_error : Type}.
Variable E : @env full_tx tx_error.
Implicit Types (w : @world full_tx tx_error) (ctx : compact_tx)
  (r : gset N) (tx : full_tx) (evs : list (@event full_tx tx_error)).

Lemma bind_Returned_inv {A B} (m : @M full_tx tx_error A)
    (k : A → @M full_tx tx_error B) w b w' :
  bind m k w = Returned b w' →
  ∃ a w1, m w = Returned a w1 ∧ k a w1 = Returned b w'.
Proof.
  unfold bind. destruct (m w) as [a w1|w1|w1]; try discriminate.
  intros H. exists a, w1. split; [reflexivity|exact H].
Qed.

Lemma execute_transaction_invalid fuel c tx cb w err :
  check_tx E tx = Some err →
  execute_transaction E fuel c tx cb w
  = Returned true
      {| w_draws := w_draws w;
         w_coordinator_calls := w_coordinator_calls w;
         w_db_calls := w_db_calls w;
         w_validate_cbs := w_validate_cbs w;
         w_coordinator_cbs := w_coordinator_cbs w;
         w_trace :=
           w_trace w
           ++ [ev_log lvl_debug (rejected_message E err (tx_id E tx));
               ev_result_callback cb
                 (Some {| m_tx_status := static_invalid;
                          m_tx_error := Some err |})] |}.
Proof.
  intros Herr. unfold execute_transaction. rewrite Herr.
  unfold bind, log, call_result_callback, emit, ret. cbn.
  rewrite <- app_assoc. reflexivity.
Qed.

(** The compact transaction [execute_transaction] starts the gathering
    with, and the world in which it does. *)
Lemma execute_transaction_valid fuel c tx cb w :
  check_tx E tx = None →
  execute_transaction E fuel c tx cb w
  = if (0 <? m_attestation_threshold (m_opts c))%N then
      bind
        (gather_attestations E fuel c tx cb
           (insert_attestation
              (sign E (compact_tx_from E tx) (m_privkey c))
              (compact_tx_from E tx)) ∅)
        (λ _, ret true)
        {| w_draws := w_draws w;
           w_coordinator_calls := w_coordinator_calls w;
           w_db_calls := w_db_calls w;
           w_validate_cbs := w_validate_cbs w;
           w_coordinator_cbs := w_coordinator_cbs w;
           w_trace :=
             w_trace w
             ++ [ev_compact_tx tx; ev_sign (compact_tx_from E tx)] |}
    else
      bind
        (gather_attestations E fuel c tx cb (compact_tx_from E tx) ∅)
        (λ _, ret true)
        {| w_draws := w_draws w;
           w_coordinator_calls := w_coordinator_calls w;
           w_db_calls := w_db_calls w;
           w_validate_cbs := w_validate_cbs w;
           w_coordinator_cbs := w_coordinator_cbs w;
           w_trace := w_trace w ++ [ev_compact_tx tx] |}.
Proof.
  intros Hok. unfold execute_transaction. rewrite Hok.
  unfold bind at 1. unfold compact_tx_of, bind at 1, emit, ret.
  unfold bind at 1.
  destruct (0 <? m_attestation_threshold (m_opts c))%N.
  - unfold bind at 1. unfold compact_tx_sign, bind at 1, emit, ret. cbn.
    rewrite <- app_assoc. reflexivity.
  - reflexivity.
Qed.

(** The first coordinates of a returning call. *)
Lemma execute_transaction_true fuel c tx cb w b w' :
  execute_transaction E fuel c tx cb w = Returned b w' → b = true.
Proof.
  destruct (check_tx E tx) as [err|] eqn:Hc.
  - rewrite (execute_transaction_invalid _ _ _ _ _ _ Hc). congruence.
  - rewrite (execute_transaction_valid _ _ _ _ _ Hc).
    destruct (0 <? m_attestation_threshold (m_opts c))%N;
      intros H; apply bind_Returned_inv in H as (a & w1 & _ & H);
      unfold ret in H; congruence.
Qed.

Lemma coordinator_reply_keeps_requests fuel c k res w :
  w_validate_cbs (final_world (deliver E fuel c (coordinator_reply k res) w))
  = w_validate_cbs w.
Proof.
  unfold deliver, bind, take_coordinator_cb.
  destruct (w_coordinator_cbs w !! k) as [cl|]; [|reflexivity].
  destruct res as [[]|]; reflexivity.
Qed.

(** Every closure a peer holds captured a peer outside its [requested]
    set. *)
Lemma reachable_fresh c w :
  reachable E c w → Forall fresh_peer (w_validate_cbs w).
Proof.
  induction 1 as [w Hw|w fuel tx cb b w' _ IH Hex|w fuel rp w' _ IH Hd].
  - rewrite Hw. constructor.
  - destruct (check_tx E tx) as [err|] eqn:Hc.
    + rewrite (execute_transaction_invalid _ _ _ _ _ _ Hc) in Hex.
      injection Hex as _ <-. exact IH.
    + rewrite (execute_transaction_valid _ _ _ _ _ Hc) in Hex.
      destruct (0 <? m_attestation_threshold (m_opts c))%N;
        apply bind_Returned_inv in Hex as ([] & w1 & Hg & Hr);
        injection Hr as _ <-;
        match type of Hg with gather_attestations E ?f ?c ?tx ?cb ?ctx ?r ?w0 = _ =>
          destruct (gather_attestations_step E f c tx cb ctx r w0)
            as (evs & new & _ & _ & _ & Hv & _ & Hn) end;
        rewrite Hg in Hv; cbn in Hv; rewrite Hv;
        (apply Forall_app; split; [exact IH|]);
        (eapply Forall_impl; [exact Hn|]);
        intros cl [Hr Hi]; unfold fresh_peer; rewrite Hr; exact Hi.
  - destruct rp as [k [a|]|k res].
    + destruct (w_validate_cbs w !! k) as [cl|] eqn:Hk.
      * rewrite (deliver_attestation _ _ _ _ _ _ _ Hk) in Hd.
        match type of Hd with gather_attestations E ?f ?c ?tx ?cb ?ctx ?r ?w0 = _ =>
          destruct (gather_attestations_step E f c tx cb ctx r w0)
            as (evs & new & _ & _ & _ & Hv & _ & Hn) end.
        rewrite Hd in Hv. cbn in Hv. rewrite Hv.
        apply Forall_app; split; [apply Forall_delete; exact IH|].
        eapply Forall_impl; [exact Hn|].
        intros cl' [Hr Hi]. unfold fresh_peer. rewrite Hr. exact Hi.
      * unfold deliver, bind, take_validate_cb in Hd. rewrite Hk in Hd.
        injection Hd as <-. cbn. apply Forall_delete; exact IH.
    + destruct (w_validate_cbs w !! k) as [cl|] eqn:Hk.
      * rewrite (deliver_invalidation _ _ _ _ _ _ Hk) in Hd.
        injection Hd as <-. cbn. apply Forall_delete; exact IH.
      * unfold deliver, bind, take_validate_cb in Hd. rewrite Hk in Hd.
        injection Hd as <-. cbn. apply Forall_delete; exact IH.
    + pose proof (coordinator_reply_keeps_requests fuel c k res w) as Hv.
      rewrite Hd in Hv. cbn in Hv. rewrite Hv. exact IH.
Qed.

End ExecuteFacts.

(** ** When the retry loops end *)

Section Liveness.

Context {full_tx tx_error : Type}.
Variable E : @env full_tx tx_error.
Implicit Types (w : @world full_tx tx_error) (ctx : compact_tx)
  (r : gset N) (tx : full_tx).

Lemma submit_loop_returns n fuel ctx cb w :
  coordinator_accepts_within E w n → n ≤ fuel →
  ∃ w', submit_loop E fuel ctx cb w = Returned tt w'.
Proof.
  intros (k & Hk & Hacc) Hfuel. assert (Hkf : k < fuel) by lia.
  clear Hk Hfuel. revert fuel w Hacc Hkf.
  induction k as [|k IH]; intros fuel w Hacc Hkf;
    (destruct fuel as [|fuel]; [lia|]); rewrite submit_loop_S.
  - rewrite Nat.add_0_r in Hacc. rewrite Hacc. eauto.
  - destruct (coordinator_accepts E (w_coordinator_calls w)); [eauto|].
    apply IH; [|lia]. cbn. rewrite <- Hacc. f_equal. lia.
Qed.

Lemma send_compact_tx_returns n fuel ctx cb w :
  coordinator_accepts_within E w n → n ≤ fuel →
  ∃ w', send_compact_tx E fuel ctx cb w = Returned tt w'.
Proof.
  intros Hacc Hfuel. unfold send_compact_tx, bind.
  destruct (submit_loop_returns n fuel ctx {| cc_res_cb := cb |} w Hacc Hfuel)
    as (w1 & ->).
  destruct (audits_record_transaction E ctx w1) as ([] & w2 & -> & _).
  eauto.
Qed.

Lemma draw_at_next c w w1 j :
  w_draws w1 = S (w_draws w) → draw_at E c w1 j = draw_at E c w (S j).
Proof.
  intros Hd. unfold draw_at. rewrite Hd. do 2 f_equal. lia.
Qed.

Lemma gather_loop_returns n fuel c tx cb ctx r w :
  peer_dispatch_within E c r w n → n ≤ fuel →
  ∃ w', gather_loop E fuel c tx cb ctx r w = Returned tt w'.
Proof.
  intros (k & Hk & Hfresh & Hacc & Hrange) Hfuel.
  assert (Hkf : k < fuel) by lia. clear Hk Hfuel.
  revert fuel w Hfresh Hacc Hrange Hkf.
  induction k as [|k IH]; intros fuel w Hfresh Hacc Hrange Hkf;
    (destruct fuel as [|fuel]; [lia|]); rewrite gather_loop_S; cbv zeta;
    pose proof (Hrange 0 ltac:(lia)) as H0;
    unfold draw_at in H0; rewrite Nat.add_0_r in H0.
  - unfold draw_at in Hfresh, Hacc. rewrite Nat.add_0_r in Hfresh, Hacc.
    destruct (decide _) as [Hin|_]; [contradiction|].
    destruct H0 as [Hin|[cl Hcl]]; [contradiction|].
    rewrite Hcl, Hacc. eauto.
  - destruct (decide _) as [Hin|Hout].
    + apply IH; [| | |lia].
      * rewrite (draw_at_next c w _ k) by reflexivity. exact Hfresh.
      * rewrite (draw_at_next c w _ k) by reflexivity. cbn.
        rewrite <- Hacc. f_equal. lia.
      * intros j Hj. rewrite (draw_at_next c w _ j) by reflexivity.
        apply Hrange. lia.
    + destruct H0 as [Hin|[cl Hcl]]; [contradiction|].
      rewrite Hcl. destruct (peer_accepts E (w_draws w) _); [eauto|].
      apply IH; [| | |lia].
      * rewrite (draw_at_next c w _ k) by reflexivity. exact Hfresh.
      * rewrite (draw_at_next c w _ k) by reflexivity. cbn.
        rewrite <- Hacc. f_equal. lia.
      * intros j Hj. rewrite (draw_at_next c w _ j) by reflexivity.
        apply Hrange. lia.
Qed.

End Liveness.

(** The call returns on the first accepted submission and only reports
    afterwards. *)
Lemma send_compact_tx_accepted {full_tx tx_error}
    (E : @env full_tx tx_error) (ctx : compact_tx) (cb : callback_id)
    (w : world) (k fuel : nat) :
  (∀ j, j < k → coordinator_accepts E (w_coordinator_calls w + j) = false) →
  coordinator_accepts E (w_coordinator_calls w + k) = true →
  k < fuel →
  ∃ w' evs,
    send_compact_tx E fuel ctx cb w = Returned tt w'
    ∧ w_trace w'
      = w_trace w ++ retries ctx k ++ ev_coordinator_execute ctx true :: evs
    ∧ Forall (λ e, is_audit e = true) evs
    ∧ w_coordinator_cbs w' = w_coordinator_cbs w ++ [{| cc_res_cb := cb |}]
    ∧ w_coordinator_calls w' = w_coordinator_calls w + S k.
Proof.
  intros Hno Hyes Hfuel. unfold send_compact_tx, bind.
  rewrite (submit_loop_accepted E k fuel ctx _ w Hno Hyes Hfuel).
  match goal with |- context [record_transaction E ctx ?w1] =>
    destruct (audits_record_transaction E ctx w1)
      as ([] & w2 & -> & _ & Hc & _ & Hk & evs & Ht & Ha) end.
  cbn in Hc, Hk, Ht. exists w2, evs. repeat split; try assumption.
  rewrite Ht, <- !app_assoc. reflexivity.
Qed.

(** Reduce the projections of explicit worlds. *)
Ltac world_simpl :=
  cbn [w_draws w_coordinator_calls w_db_calls w_validate_cbs
         w_coordinator_cbs w_trace final_world] in *.

Lemma final_world_bind_ret {full_tx tx_error A B}
    (m : @M full_tx tx_error A) (b : B) (w : world) :
  final_world (bind m (λ _, ret b) w) = final_world (m w).
Proof. unfold bind. destruct (m w); reflexivity. Qed.

Lemma submissions_never_sign {full_tx tx_error} (ctx : compact_tx)
    (evs : list (@event full_tx tx_error)) :
  Forall (submission_of ctx) evs → List.filter is_sign evs = [].
Proof.
  intros Hs. eapply filter_Forall_false; [exact Hs|].
  intros e [[ok ->]|[->|He]]; try reflexivity.
  destruct e; try discriminate He; reflexivity.
Qed.

Lemma coordinator_accepts_within_calls {full_tx tx_error}
    (E : @env full_tx tx_error) (w1 w2 : world) (n : nat) :
  w_coordinator_calls w2 = w_coordinator_calls w1 →
  coordinator_accepts_within E w1 n → coordinator_accepts_within E w2 n.
Proof. unfold coordinator_accepts_within. intros ->. trivial. Qed.

Lemma peer_dispatch_within_draws {full_tx tx_error}
    (E : @env full_tx tx_error) (c : controller) (r : gset N)
    (w1 w2 : world) (n : nat) :
  w_draws w2 = w_draws w1 →
  peer_dispatch_within E c r w1 n → peer_dispatch_within E c r w2 n.
Proof. unfold peer_dispatch_within, draw_at. intros ->. trivial. Qed.

(** ** Start-up *)

Section InitFacts.

Context {full_tx tx_error : Type}.
Variable E : @env full_tx tx_error.
Implicit Types (w : @world full_tx tx_error) (c : controller).

Lemma connect_database_returns w :
  ∃ w', connect_database E w = Returned tt w'.
Proof.
  unfold connect_database.
  destruct (db_init_ok E), (db_connect_ok E); eexists; reflexivity.
Qed.

Lemma coordinator_init_loop_returns retry_threshold attempt retry_delay w :
  ∃ w', coordinator_init_loop E retry_threshold attempt retry_delay w
        = Returned tt w'.
Proof.
  revert attempt retry_delay w.
  induction retry_threshold as [|n IH]; intros attempt retry_delay w;
    cbn [coordinator_init_loop];
    destruct (coordinator_init_ok E attempt); try (eexists; reflexivity).
  unfold bind, log, sleep_for, emit.
  destruct n; [apply IH|]. unfold bind, log, emit. apply IH.
Qed.

(** The clients [init] creates: one per endpoint other than the
    sentinel's own, in order. *)
Lemma connect_sentinels_returns self eps clients w :
  ∃ w', connect_sentinels E self eps clients w
        = Returned
            (clients
             ++ map (λ ep, {| cl_endpoint := ep;
                              cl_started := client_init_ok E ep |})
                  (List.filter (λ ep, negb (bool_decide (ep = self))) eps))
            w'.
Proof.
  revert clients w. induction eps as [|ep eps IH]; intros clients w.
  - cbn. rewrite app_nil_r. eexists. reflexivity.
  - cbn [connect_sentinels List.filter].
    destruct (decide (ep = self)) as [Heq|Hne].
    + rewrite (bool_decide_eq_true_2 _ Heq). cbn [negb]. apply IH.
    + rewrite (bool_decide_eq_false_2 _ Hne). cbn [negb map].
      unfold bind at 1.
      assert (∃ w1, (if client_init_ok E ep then ret tt
                     else log lvl_warn ["Failed to start sentinel client"%string]) w
                    = Returned tt w1) as (w1 & ->)
        by (destruct (client_init_ok E ep); eexists; reflexivity).
      destruct (IH (clients ++ [{| cl_endpoint := ep;
                                   cl_started := client_init_ok E ep |}]) w1)
        as (w' & ->).
      rewrite <- app_assoc. eexists. reflexivity.
Qed.

Lemma filter_all_self (self : endpoint_t) eps :
  Forall (λ ep, ep = self) eps →
  List.filter (λ ep, negb (bool_decide (ep = self))) eps = [].
Proof.
  induction 1 as [|ep eps Heq _ IH]; [reflexivity|].
  cbn. rewrite (bool_decide_eq_true_2 _ Heq). exact IH.
Qed.

(** With no endpoint but the sentinel's own, the second half of [init]
    creates no client, sets the candidate range to [[0, 0]] and returns what
    the start of the RPC server returned. *)
Lemma init_connections_lonely c self w :
  m_sentinel_endpoints (m_opts c) !! N.to_nat (m_sentinel_id c) = Some self →
  Forall (λ ep, ep = self) (m_sentinel_endpoints (m_opts c)) →
  m_sentinel_clients c = [] →
  ∃ w', init_connections E c w
        = Returned (rpc_server_init_ok E, set_clients [] (0, 0)%N c) w'.
Proof.
  intros Hself Hall Hnone. unfold init_connections, bind at 1.
  destruct (coordinator_init_loop_returns 4 0 1 w) as (w1 & ->).
  rewrite Hself. unfold bind at 1.
  destruct (connect_sentinels_returns self (m_sentinel_endpoints (m_opts c))
              (m_sentinel_clients c) w1) as (w2 & ->).
  rewrite (filter_all_self _ _ Hall), Hnone. cbn [map app].
  destruct (rpc_server_init_ok E); eexists; reflexivity.
Qed.

End InitFacts.

(** ** The constructor *)

Lemma static_cast_uint32_small (n : N) :
  (n < 2 ^ 32)%N → static_cast_uint32 n = n.
Proof. intros Hn. unfold static_cast_uint32. apply N.mod_small. exact Hn. Qed.


Section InitKeeps.

Context {full_tx tx_error : Type}.
Variable E : @env full_tx tx_error.
Implicit Types (w : @world full_tx tx_error) (c : controller).

Lemma init_connections_keeps_coordinator_client c w b c' w' :
  init_connections E c w = Returned (b, c') w' →
  m_coordinator_client c' = m_coordinator_client c.
Proof.
  unfold init_connections, bind at 1.
  destruct (coordinator_init_loop_returns E 4 0 1 w) as (w1 & ->).
  destruct (m_sentinel_endpoints (m_opts c) !! N.to_nat (m_sentinel_id c))
    as [self|]; [|discriminate].
  unfold bind at 1.
  destruct (connect_sentinels_returns E self
              (m_sentinel_endpoints (m_opts c)) (m_sentinel_clients c) w1)
    as (w2 & ->).
  destruct (rpc_server_init_ok E); unfold bind, log, emit, ret;
    intros [= _ <- _]; reflexivity.
Qed.

(** [init] never reassigns the coordinator client. *)
Lemma init_keeps_coordinator_client c w b c' w' :
  init E c w = Returned (b, c') w' →
  m_coordinator_client c' = m_coordinator_client c.
Proof.
  unfold init, bind at 1.
  destruct (connect_database_returns E w) as (w0 & ->).
  destruct (decide _); [unfold bind, log, emit, ret; congruence|].
  destruct (_ <=? _)%N; [unfold bind, log, emit, ret; congruence|].
  destruct (m_sentinel_private_keys (m_opts c) !! m_sentinel_id c).
  - unfold bind at 1, log, emit. intros H.
    apply init_connections_keeps_coordinator_client in H. exact H.
  - destruct (0 <? _)%N; [unfold bind, log, emit, ret; congruence|].
    apply init_connections_keeps_coordinator_client.
Qed.

End InitKeeps.

(** ** Facts about the sample deployment *)

Lemma sample_after_execute_reachable :
  reachable Sample.E Sample.c Sample.after_execute.
Proof.
  apply (reach_execute Sample.E Sample.c empty_world 1 1 3 true
           Sample.after_execute
           (reach_start Sample.E Sample.c empty_world eq_refl)).
  vm_compute. reflexivity.
Defined.

Lemma crowded_count :
  N.of_nat (length (m_coordinator_endpoints Sample.crowded_opts))
  = (2 ^ 32 + 1)%N.
Proof.
  unfold Sample.crowded_opts. cbv beta iota delta [m_coordinator_endpoints].
  rewrite !length_cons, repeat_length, !Nat2N.inj_succ, N2Nat.id.
  reflexivity.
Qed.

(** ** Where the result callback is when [execute_transaction] returns *)

Section CallbackFacts.

Context {full_tx tx_error : Type}.
Variable E : @env full_tx tx_error.
Implicit Types (w : @world full_tx tx_error) (ctx : compact_tx)
  (r : gset N) (tx : full_tx) (evs : list (@event full_tx tx_error)).

Lemma submissions_invoke_nothing ctx evs cb :
  Forall (submission_of ctx) evs → results_for cb evs = [].
Proof.
  intros Hs. eapply omap_Forall_None; [exact Hs|].
  intros e [[ok ->]|[->|He]]; try reflexivity.
  destruct e; try discriminate He; reflexivity.
Qed.

Lemma dispatches_invoke_nothing tx r evs cb :
  Forall (dispatch_to_fresh tx r) evs → results_for cb evs = [].
Proof.
  intros Hs. eapply omap_Forall_None; [exact Hs|].
  intros e (j & ok & -> & _). reflexivity.
Qed.

(** A submission loop that ends has handed the callback to the coordinator
    client. *)
Lemma submit_loop_returned fuel ctx cb w w' :
  submit_loop E fuel ctx cb w = Returned tt w' →
  w_coordinator_cbs w' = w_coordinator_cbs w ++ [cb].
Proof.
  revert w. induction fuel as [|fuel IH]; intros w; [discriminate|].
  rewrite submit_loop_S.
  destruct (coordinator_accepts E (w_coordinator_calls w)).
  - intros [= <-]. reflexivity.
  - intros H. apply IH in H. exact H.
Qed.

Lemma send_compact_tx_returned fuel ctx cb w w' :
  send_compact_tx E fuel ctx cb w = Returned tt w' →
  w_coordinator_cbs w' = w_coordinator_cbs w ++ [{| cc_res_cb := cb |}].
Proof.
  unfold send_compact_tx, bind.
  destruct (submit_loop E fuel ctx {| cc_res_cb := cb |} w)
    as [[] w1|w1|w1] eqn:Hs; try discriminate.
  apply submit_loop_returned in Hs.
  destruct (audits_record_transaction E ctx w1)
    as ([] & w2 & -> & _ & _ & _ & Hk & _).
  intros [= <-]. congruence.
Qed.

(** When an entry into [gather_attestations] returns, no result callback
    was invoked, and the callback it was given is held by exactly one new
    request: at a peer, or at the coordinator client. *)
Lemma gather_attestations_returned fuel c tx cb ctx r w w' :
  gather_attestations E fuel c tx cb ctx r w = Returned tt w' →
  (∃ evs, w_trace w' = w_trace w ++ evs ∧ ∀ cb', results_for cb' evs = [])
  ∧ ((∃ i,
        w_validate_cbs w'
        = w_validate_cbs w
          ++ [{| vc_sentinel_id := i; vc_requested := r; vc_tx := tx;
                 vc_result_callback := cb; vc_ctx := ctx |}]
        ∧ w_coordinator_cbs w' = w_coordinator_cbs w)
     ∨ (w_coordinator_cbs w'
        = w_coordinator_cbs w ++ [{| cc_res_cb := cb |}]
        ∧ w_validate_cbs w' = w_validate_cbs w)).
Proof.
  rewrite gather_attestations_eq.
  destruct (_ <? _)%N; intros Hret.
  - match type of Hret with gather_loop E fuel c tx cb ctx r ?w1 = _ =>
      destruct (gather_loop_events E fuel c tx cb ctx r w1)
        as (Hk & (evs & Ht & Hs) & Hv) end.
    rewrite Hret in Hk, Ht, Hv. world_simpl.
    destruct Hv as (i & _ & Hv). split.
    + exists (ev_gather ctx r :: evs). rewrite Ht, <- app_assoc.
      split; [reflexivity|]. intros cb'. cbn.
      apply (dispatches_invoke_nothing _ _ _ _ Hs).
    + left. exists i. split; assumption.
  - match type of Hret with send_compact_tx E fuel ctx cb ?w1 = _ =>
      destruct (send_compact_tx_events E fuel ctx cb w1)
        as (_ & Hv & evs & Ht & Hs) end.
    pose proof (send_compact_tx_returned _ _ _ _ _ Hret) as Hk.
    rewrite Hret in Hv, Ht. world_simpl. split.
    + exists ([ev_gather ctx r; ev_log lvl_debug (accepted_message E ctx)]
              ++ evs).
      rewrite Ht, <- app_assoc. split; [reflexivity|]. intros cb'. cbn.
      apply (submissions_invoke_nothing _ _ _ Hs).
    + right. split; assumption.
Qed.

(** Whether or not it returns, an entry into [gather_attestations] invokes
    no result callback. *)
Lemma gather_attestations_invokes_nothing fuel c tx cb ctx r w :
  ∃ evs,
    w_trace (final_world (gather_attestations E fuel c tx cb ctx r w))
    = w_trace w ++ evs
    ∧ ∀ cb', results_for cb' evs = [].
Proof.
  rewrite gather_attestations_eq.
  destruct (_ <? _)%N.
  - match goal with |- context [gather_loop E fuel c tx cb ctx r ?w1] =>
      destruct (gather_loop_events E fuel c tx cb ctx r w1)
        as (_ & (evs & Ht & Hs) & _) end.
    world_simpl. exists (ev_gather ctx r :: evs).
    rewrite Ht, <- app_assoc. split; [reflexivity|]. intros cb'. cbn.
    apply (dispatches_invoke_nothing _ _ _ _ Hs).
  - match goal with |- context [send_compact_tx E fuel ctx cb ?w1] =>
      destruct (send_compact_tx_events E fuel ctx cb w1)
        as (_ & _ & evs & Ht & Hs) end.
    world_simpl.
    exists ([ev_gather ctx r; ev_log lvl_debug (accepted_message E ctx)]
            ++ evs).
    rewrite Ht, <- app_assoc. split; [reflexivity|]. intros cb'. cbn.
    apply (submissions_invoke_nothing _ _ _ Hs).
Qed.

(** A submission loop that ended within [fuel] rounds was accepted in one of
    them. *)
Lemma submit_loop_returned_within fuel ctx cb w w' :
  submit_loop E fuel ctx cb w = Returned tt w' →
  coordinator_accepts_within E w fuel.
Proof.
  revert w. induction fuel as [|fuel IH]; intros w; [discriminate|].
  rewrite submit_loop_S.
  destruct (coordinator_accepts E (w_coordinator_calls w)) eqn:Hacc.
  - intros _. exists 0. split; [lia|]. rewrite Nat.add_0_r. exact Hacc.
  - intros H. apply IH in H as (k & Hk & Hyes). world_simpl.
    exists (S k). split; [lia|]. rewrite <- Hyes. f_equal. lia.
Qed.

Lemma send_compact_tx_returned_within fuel ctx cb w w' :
  send_compact_tx E fuel ctx cb w = Returned tt w' →
  coordinator_accepts_within E w fuel.
Proof.
  unfold send_compact_tx, bind.
  destruct (submit_loop E fuel ctx {| cc_res_cb := cb |} w)
    as [[] w1|w1|w1] eqn:Hs; try discriminate.
  intros _. exact (submit_loop_returned_within _ _ _ _ _ Hs).
Qed.

(** A dispatch loop that ended within [fuel] rounds found, in one of them, a
    peer outside [requested] that accepted, and indexed the client vector in
    range until then. *)
Lemma gather_loop_returned_within fuel c tx cb ctx r w w' :
  gather_loop E fuel c tx cb ctx r w = Returned tt w' →
  peer_dispatch_within E c r w fuel.
Proof.
  revert w. induction fuel as [|fuel IH]; intros w; [discriminate|].
  rewrite gather_loop_S. cbv zeta.
  assert (H0 : draw_at E c w 0 = uniform_draw (m_dist c) (rand E (w_draws w))).
  { unfold draw_at. rewrite Nat.add_0_r. reflexivity. }
  destruct (decide (uniform_draw (m_dist c) (rand E (w_draws w)) ∈ r))
    as [Hin|Hout].
  - intros H. apply IH in H as (k & Hk & Hf & Ha & Hr).
    rewrite (draw_at_next E c w _ k) in Hf, Ha by reflexivity.
    world_simpl. exists (S k). split; [lia|]. split; [exact Hf|]. split.
    + rewrite <- Ha. f_equal. lia.
    + intros [|j] Hj.
      * left. rewrite H0. exact Hin.
      * assert (Hj' : j ≤ k) by lia. apply Hr in Hj'.
        rewrite (draw_at_next E c w _ j) in Hj' by reflexivity. exact Hj'.
  - destruct (m_sentinel_clients c
                !! N.to_nat (uniform_draw (m_dist c) (rand E (w_draws w))))
      as [cl|] eqn:Hcl; [|discriminate].
    destruct (peer_accepts E (w_draws w)
                (uniform_draw (m_dist c) (rand E (w_draws w)))) eqn:Hacc.
    + intros _. exists 0. split; [lia|]. rewrite H0, Nat.add_0_r.
      split; [exact Hout|]. split; [exact Hacc|].
      intros j Hj. replace j with 0 by lia. right. rewrite H0, Hcl. eauto.
    + intros H. apply IH in H as (k & Hk & Hf & Ha & Hr).
      rewrite (draw_at_next E c w _ k) in Hf, Ha by reflexivity.
      world_simpl. exists (S k). split; [lia|]. split; [exact Hf|]. split.
      * rewrite <- Ha. f_equal. lia.
      * intros [|j] Hj.
        -- right. rewrite H0, Hcl. eauto.
        -- assert (Hj' : j ≤ k) by lia. apply Hr in Hj'.
           rewrite (draw_at_next E c w _ j) in Hj' by reflexivity. exact Hj'.
Qed.

(** With a threshold of at most 1 a valid transaction goes straight to the
    coordinator submission. *)
Lemma execute_transaction_submits fuel c tx cb w :
  check_tx E tx = None →
  (m_attestation_threshold (m_opts c) ≤ 1)%N →
  ∃ ctx w1,
    w_coordinator_calls w1 = w_coordinator_calls w
    ∧ execute_transaction E fuel c tx cb w
      = bind (send_compact_tx E fuel ctx cb) (λ _, ret true) w1.
Proof.
  intros Hok Hthr. rewrite (execute_transaction_valid E _ _ _ _ _ Hok).
  destruct (0 <? m_attestation_threshold (m_opts c))%N eqn:Hpos;
    unfold bind at 1; rewrite gather_attestations_eq.
  - replace (N.of_nat (size (m_attestations
               (insert_attestation
                  (sign E (compact_tx_from E tx) (m_privkey c))
                  (compact_tx_from E tx))))
             <? m_attestation_threshold (m_opts c))%N with false.
    2:{ symmetry. apply N.ltb_ge. cbn.
        rewrite union_empty_r_L, size_singleton. lia. }
    eexists _, _. split; [|reflexivity]. reflexivity.
  - apply N.ltb_ge in Hpos.
    replace (N.of_nat (size (m_attestations (compact_tx_from E tx)))
             <? m_attestation_threshold (m_opts c))%N with false
      by (symmetry; apply N.ltb_ge; cbn; lia).
    eexists _, _. split; [|reflexivity]. reflexivity.
Qed.

(** With a threshold above 1 a valid transaction goes to the dispatch loop,
    with nothing requested yet. *)
Lemma execute_transaction_dispatches fuel c tx cb w :
  check_tx E tx = None →
  (1 < m_attestation_threshold (m_opts c))%N →
  ∃ ctx w1,
    w_draws w1 = w_draws w
    ∧ execute_transaction E fuel c tx cb w
      = bind (gather_loop E fuel c tx cb ctx ∅) (λ _, ret true) w1.
Proof.
  intros Hok Hthr. rewrite (execute_transaction_valid E _ _ _ _ _ Hok).
  replace (0 <? m_attestation_threshold (m_opts c))%N with true
    by (symmetry; apply N.ltb_lt; lia).
  unfold bind at 1; rewrite gather_attestations_eq.
  replace (N.of_nat (size (m_attestations
             (insert_attestation
                (sign E (compact_tx_from E tx) (m_privkey c))
                (compact_tx_from E tx))))
           <? m_attestation_threshold (m_opts c))%N with true.
  2:{ symmetry. apply N.ltb_lt. cbn.
      rewrite union_empty_r_L, size_singleton. lia. }
  eexists _, _. split; [|reflexivity]. reflexivity.
Qed.

End CallbackFacts.

(** With a coordinator client that never accepts, a transaction that needs
    no attestation is submitted for ever. *)
Lemma sample_deaf_coordinator (fuel : nat) :
  ∃ w', execute_transaction Sample.deaf_E fuel Sample.open_c 1 3 empty_world
        = Diverged w'.
Proof.
  rewrite (execute_transaction_valid Sample.deaf_E fuel Sample.open_c 1 3
             empty_world eq_refl).
  change (0 <? m_attestation_threshold (m_opts Sample.open_c))%N with false.
  cbv iota. unfold bind at 1. rewrite gather_attestations_eq.
  change (N.of_nat
            (size (m_attestations (compact_tx_from Sample.deaf_E 1%nat)))
          <? m_attestation_threshold (m_opts Sample.open_c))%N with false.
  cbv iota. unfold send_compact_tx, bind.
  rewrite submit_loop_refused by reflexivity. eexists. reflexivity.
Qed.

(** * The properties of the specification *)

(** C1, as the code has it.  When a queried peer reports invalidation (its
    validate result carries no attestation), [validate_result_handler] logs
    the fact and invokes the caller's result callback exactly once with an
    absent result: no status is delivered.  The transaction ends there: the
    peer's closure is dropped, no new closure is created, and no coordinator
    submission is made or left pending. *)
Theorem remote_invalidation_gives_absent_result {full_tx tx_error}
    (E : @env full_tx tx_error) (fuel : nat) (c : controller) (w : world) :
  (∀ tx cb ctx requested,
     validate_result_handler E fuel c None tx cb ctx requested w
     = Returned tt
         {| w_draws := w_draws w;
            w_coordinator_calls := w_coordinator_calls w;
            w_db_calls := w_db_calls w;
            w_validate_cbs := w_validate_cbs w;
            w_coordinator_cbs := w_coordinator_cbs w;
            w_trace :=
              w_trace w
              ++ [ev_log lvl_error (remote_invalid_message E ctx);
                  ev_result_callback cb None] |})
  ∧ (∀ k cl,
       w_validate_cbs w !! k = Some cl →
       ∃ w', deliver E fuel c (peer_reply k None) w = Returned tt w'
             ∧ w_trace w'
               = w_trace w
                 ++ [ev_log lvl_error (remote_invalid_message E (vc_ctx cl));
                     ev_result_callback (vc_result_callback cl) None]
             ∧ w_validate_cbs w' = delete k (w_validate_cbs w)
             ∧ w_coordinator_cbs w' = w_coordinator_cbs w
             ∧ w_coordinator_calls w' = w_coordinator_calls w).
Proof.
  split.
  - intros tx cb ctx requested.
    unfold validate_result_handler, bind, log, call_result_callback, emit.
    cbn. rewrite <- app_assoc. reflexivity.
  - intros k cl Hk. eexists. split.
    + apply deliver_invalidation. exact Hk.
    + repeat split.
Qed.

Lemma remote_invalidation_gives_absent_result_witness :
  ∃ w', deliver Sample.E 1 Sample.c (peer_reply 0 None) Sample.after_execute
        = Returned tt w'
        ∧ w_trace w'
          = w_trace Sample.after_execute
            ++ [ev_log lvl_error (remote_invalid_message Sample.E
                          (vc_ctx Sample.first_closure));
                ev_result_callback 3 None]
        ∧ w_validate_cbs w' = delete 0 (w_validate_cbs Sample.after_execute)
        ∧ w_coordinator_cbs w' = w_coordinator_cbs Sample.after_execute
        ∧ w_coordinator_calls w' = w_coordinator_calls Sample.after_execute.
Proof.
  apply (proj2 (remote_invalidation_gives_absent_result
                  Sample.E 1 Sample.c Sample.after_execute)
           0 Sample.first_closure).
  vm_compute. reflexivity.
Defined.

(** C1, as stated, fails.  Sentinel 0 has dispatched transaction 1 to peer 0;
    the peer answers that the transaction is invalid.  The callback of the
    transaction receives one result, the absent one, and therefore no
    response whose status is [state_invalid]. *)
Lemma remote_invalidation_is_not_state_invalid :
  ∃ w', deliver Sample.E 1 Sample.c (peer_reply 0 None) Sample.after_execute
        = Returned tt w'
        ∧ results_for 3 (w_trace w') = [None]
        ∧ ¬ (∃ r, In (Some r) (results_for 3 (w_trace w'))
                  ∧ m_tx_status r = state_invalid).
Proof.
  eexists. split; [vm_compute; reflexivity|].
  split; [vm_compute; reflexivity|].
  intros (r & Hin & _). vm_compute in Hin.
  destruct Hin as [Hin|[]]. discriminate Hin.
Qed.

(** C2. Let a peer hold a closure of a reachable world.  The peer it captured
    is outside the [requested] set it captured.  When the peer's signed reply
    arrives, the gathering is entered again with that set plus exactly this
    one peer, one element larger; every request the step dispatches goes to
    a peer outside the extended set; at most one closure is created, and it
    captures the extended set and a peer outside it.  The closures of all
    other requests are exactly those held before: the step extended a copy
    and changed no set another branch holds. *)
Theorem requested_grows_by_one_fresh_peer {full_tx tx_error}
    (E : @env full_tx tx_error) (c : controller) (w : world) (k : nat)
    (cl : validate_closure) :
  reachable E c w →
  w_validate_cbs w !! k = Some cl →
  (vc_sentinel_id cl ∉ vc_requested cl)
  ∧ ∀ fuel a,
      size ({[vc_sentinel_id cl]} ∪ vc_requested cl)
      = S (size (vc_requested cl))
      ∧ ∃ evs new,
          w_trace (final_world (deliver E fuel c (peer_reply k (Some a)) w))
          = w_trace w
            ++ ev_gather (insert_attestation a (vc_ctx cl))
                 ({[vc_sentinel_id cl]} ∪ vc_requested cl) :: evs
          ∧ requested_sequence evs = []
          ∧ Forall (λ i, i ∉ {[vc_sentinel_id cl]} ∪ vc_requested cl)
              (dispatched_peers evs)
          ∧ w_validate_cbs
              (final_world (deliver E fuel c (peer_reply k (Some a)) w))
            = delete k (w_validate_cbs w) ++ new
          ∧ length new ≤ 1
          ∧ Forall (λ cl',
                      vc_requested cl'
                      = {[vc_sentinel_id cl]} ∪ vc_requested cl
                      ∧ vc_sentinel_id cl' ∉ vc_requested cl')
              new.
Proof.
  intros Hreach Hk.
  assert (Hfresh : vc_sentinel_id cl ∉ vc_requested cl).
  { pose proof (reachable_fresh E c w Hreach) as Hall.
    rewrite Forall_lookup in Hall. exact (Hall k cl Hk). }
  split; [exact Hfresh|]. intros fuel a.
  split; [apply size_insert_fresh; exact Hfresh|].
  rewrite (deliver_attestation E _ _ _ _ _ _ Hk).
  match goal with |- context [gather_attestations E fuel c ?tx ?cb ?ctx ?r ?w0] =>
    destruct (gather_attestations_step E fuel c tx cb ctx r w0)
      as (evs & new & Ht & Hr & Hd & Hv & Hlen & Hn)
  end.
  world_simpl. exists evs, new. repeat split; try assumption.
  - eapply Forall_impl; [exact Hn|]. intros cl' [Hr' Hi'].
    split; [exact Hr'|]. rewrite Hr'. exact Hi'.
Qed.

Lemma requested_grows_by_one_fresh_peer_witness :
  (0%N ∉ (∅ : gset N))
  ∧ size ({[0%N]} ∪ (∅ : gset N)) = 1
  ∧ ∃ evs new,
      w_trace (final_world
                 (deliver Sample.E 1 Sample.c
                    (peer_reply 0 (Some Sample.peer_attestation))
                    Sample.after_execute))
      = w_trace Sample.after_execute
        ++ ev_gather
             (insert_attestation Sample.peer_attestation
                (vc_ctx Sample.first_closure))
             ({[0%N]} ∪ ∅) :: evs
      ∧ requested_sequence evs = []
      ∧ Forall (λ i, i ∉ ({[0%N]} ∪ ∅ : gset N)) (dispatched_peers evs)
      ∧ w_validate_cbs
          (final_world
             (deliver Sample.E 1 Sample.c
                (peer_reply 0 (Some Sample.peer_attestation))
                Sample.after_execute))
        = delete 0 (w_validate_cbs Sample.after_execute) ++ new
      ∧ length new ≤ 1
      ∧ Forall (λ cl',
                  vc_requested cl' = {[0%N]} ∪ ∅
                  ∧ vc_sentinel_id cl' ∉ vc_requested cl')
          new.
Proof.
  destruct (requested_grows_by_one_fresh_peer
              Sample.E Sample.c Sample.after_execute 0 Sample.first_closure
              sample_after_execute_reachable)
    as [Hfresh Hstep].
  - vm_compute. reflexivity.
  - destruct (Hstep 1 Sample.peer_attestation) as [Hsize Hrest].
    split; [exact Hfresh|]. split; [exact Hsize|exact Hrest].
Defined.

(** C3. With an attestation threshold of 0, a transaction that passes the
    validator never reaches a peer.  Whatever the coordinator client does and
    however long the call is followed, the events of [execute_transaction]
    contain no peer request and no signature, no peer is left holding a
    callback, and every submission carries the compact transaction as it was
    built, whose attestation set is empty.  Once the coordinator client
    accepts (after [k] refusals) the call returns, and its trace is the
    construction of the compact transaction, the entry into the gathering
    with nothing requested, the submissions, and reporting. *)
Theorem threshold_zero_submits_unattested {full_tx tx_error}
    (E : @env full_tx tx_error) (c : controller) (tx : full_tx)
    (cb : callback_id) (w : world) :
  check_tx E tx = None →
  m_attestation_threshold (m_opts c) = 0%N →
  (∀ fuel, ∃ evs,
      w_trace (final_world (execute_transaction E fuel c tx cb w))
      = w_trace w ++ evs
      ∧ dispatched_peers evs = []
      ∧ List.filter is_sign evs = []
      ∧ Forall (λ s : compact_tx * bool,
                  s.1 = compact_tx_from E tx ∧ m_attestations s.1 = ∅)
          (submitted evs)
      ∧ w_validate_cbs (final_world (execute_transaction E fuel c tx cb w))
        = w_validate_cbs w)
  ∧ (∀ k fuel,
       (∀ j, j < k →
             coordinator_accepts E (w_coordinator_calls w + j) = false) →
       coordinator_accepts E (w_coordinator_calls w + k) = true →
       k < fuel →
       ∃ w' evs,
         execute_transaction E fuel c tx cb w = Returned true w'
         ∧ w_trace w'
           = w_trace w
             ++ [ev_compact_tx tx;
                 ev_gather (compact_tx_from E tx) ∅;
                 ev_log lvl_debug (accepted_message E (compact_tx_from E tx))]
             ++ retries (compact_tx_from E tx) k
             ++ ev_coordinator_execute (compact_tx_from E tx) true :: evs
         ∧ Forall (λ e, is_audit e = true) evs).
Proof.
  intros Hok Hthr. split.
  - intros fuel. rewrite (execute_transaction_valid E _ _ _ _ _ Hok), Hthr.
    cbn [N.ltb N.compare]. rewrite final_world_bind_ret.
    rewrite gather_attestations_eq, Hthr.
    replace (N.of_nat (size (m_attestations (compact_tx_from E tx))) <? 0)%N
      with false by (symmetry; apply N.ltb_ge; lia).
    world_simpl.
    match goal with |- context [send_compact_tx E fuel ?ctx cb ?w1] =>
      destruct (send_compact_tx_events E fuel ctx cb w1)
        as (_ & Hv & evs & Ht & Hs) end.
    world_simpl.
    destruct (submissions_make_no_request _ evs Hs) as [_ Hd].
    eexists. rewrite Ht, Hv, <- !app_assoc. split; [reflexivity|].
    repeat split.
    + cbn. exact Hd.
    + cbn. apply (submissions_never_sign _ _ Hs).
    + cbn. eapply Forall_impl; [apply (submitted_of _ _ Hs)|].
      intros s ->. split; reflexivity.
  - intros k fuel Hno Hyes Hfuel.
    rewrite (execute_transaction_valid E _ _ _ _ _ Hok), Hthr.
    cbn [N.ltb N.compare]. unfold bind at 1.
    rewrite gather_attestations_eq, Hthr.
    replace (N.of_nat (size (m_attestations (compact_tx_from E tx))) <? 0)%N
      with false by (symmetry; apply N.ltb_ge; lia).
    world_simpl.
    match goal with |- context [send_compact_tx E fuel ?ctx cb ?w1] =>
      destruct (send_compact_tx_accepted E ctx cb w1 k fuel)
        as (w' & evs & -> & Ht & Ha & _) end;
      [exact Hno|exact Hyes|exact Hfuel|].
    world_simpl. exists w', evs. split; [reflexivity|]. split; [|exact Ha].
    rewrite Ht, <- !app_assoc. reflexivity.
Qed.

Lemma threshold_zero_submits_unattested_witness :
  (∃ evs,
     w_trace (final_world
                (execute_transaction Sample.E 2 Sample.open_c 1 4 empty_world))
     = [] ++ evs
     ∧ dispatched_peers evs = []
     ∧ List.filter is_sign evs = []
     ∧ Forall (λ s : compact_tx * bool,
                 s.1 = compact_tx_from Sample.E 1 ∧ m_attestations s.1 = ∅)
         (submitted evs)
     ∧ w_validate_cbs
         (final_world
            (execute_transaction Sample.E 2 Sample.open_c 1 4 empty_world))
       = [])
  ∧ (∃ w' evs,
       execute_transaction Sample.E 4 Sample.open_c 1 4 empty_world
       = Returned true w'
       ∧ w_trace w'
         = [] ++ [ev_compact_tx 1;
                  ev_gather (compact_tx_from Sample.E 1) ∅;
                  ev_log lvl_debug (accepted_message Sample.E (compact_tx_from Sample.E 1))]
           ++ retries (compact_tx_from Sample.E 1) 3
           ++ ev_coordinator_execute (compact_tx_from Sample.E 1) true :: evs
       ∧ Forall (λ e, is_audit e = true) evs).
Proof.
  destruct (threshold_zero_submits_unattested
              Sample.E Sample.open_c 1 4 empty_world eq_refl eq_refl)
    as [Hsafe Hlive].
  split.
  - exact (Hsafe 2).
  - apply (Hlive 3 4).
    + intros [|[|[|j]]] Hj; [reflexivity|reflexivity|reflexivity|lia].
    + reflexivity.
    + lia.
Defined.

(** C4. When the validator reports a violation, [execute_transaction] returns
    after exactly two events: the log line and one invocation of the result
    callback with status [static_invalid] and that violation.  No compact
    transaction is built, no peer and no coordinator is called, and nothing
    is left pending. *)
Theorem static_violation_is_reported_once {full_tx tx_error}
    (E : @env full_tx tx_error) (fuel : nat) (c : controller) (tx : full_tx)
    (cb : callback_id) (w : world) (err : tx_error) :
  check_tx E tx = Some err →
  ∃ w', execute_transaction E fuel c tx cb w = Returned true w'
        ∧ w_trace w'
          = w_trace w
            ++ [ev_log lvl_debug (rejected_message E err (tx_id E tx));
                ev_result_callback cb
                  (Some {| m_tx_status := static_invalid;
                           m_tx_error := Some err |})]
        ∧ w_validate_cbs w' = w_validate_cbs w
        ∧ w_coordinator_cbs w' = w_coordinator_cbs w
        ∧ w_draws w' = w_draws w
        ∧ w_coordinator_calls w' = w_coordinator_calls w
        ∧ w_db_calls w' = w_db_calls w.
Proof.
  intros Herr. eexists. split.
  - apply execute_transaction_invalid. exact Herr.
  - repeat split.
Qed.

Lemma static_violation_is_reported_once_witness :
  ∃ w', execute_transaction Sample.E 0 Sample.c 0 3 empty_world
        = Returned true w'
        ∧ w_trace w'
          = [ev_log lvl_debug (rejected_message Sample.E 7 (tx_id Sample.E 0));
             ev_result_callback 3
               (Some {| m_tx_status := static_invalid;
                        m_tx_error := Some 7 |})]
        ∧ w_validate_cbs w' = []
        ∧ w_coordinator_cbs w' = []
        ∧ w_draws w' = 0
        ∧ w_coordinator_calls w' = 0
        ∧ w_db_calls w' = 0.
Proof.
  exact (static_violation_is_reported_once
           Sample.E 0 Sample.c 0 3 empty_world 7 eq_refl).
Defined.

(** C5. [result_handler] translates the coordinator's completion value: [true]
    becomes the status [confirmed], [false] becomes [state_invalid], and an
    absent value is passed on as an absent result, so never as [confirmed] or
    [state_invalid].  In each case the callback is invoked exactly once: the
    call adds that single event to the trace and changes nothing else. *)
Theorem result_handler_translates_outcome {full_tx tx_error}
    (res_cb : callback_id) (w : @world full_tx tx_error) :
  let invoked r :=
    Returned tt
      {| w_draws := w_draws w;
         w_coordinator_calls := w_coordinator_calls w;
         w_db_calls := w_db_calls w;
         w_validate_cbs := w_validate_cbs w;
         w_coordinator_cbs := w_coordinator_cbs w;
         w_trace := w_trace w ++ [ev_result_callback res_cb r] |} in
  result_handler (Some true) res_cb w
  = invoked (Some {| m_tx_status := confirmed; m_tx_error := None |})
  ∧ result_handler (Some false) res_cb w
    = invoked (Some {| m_tx_status := state_invalid; m_tx_error := None |})
  ∧ result_handler None res_cb w = invoked None.
Proof. cbv zeta. repeat split. Qed.

(** C6. [send_compact_tx] keeps submitting.  As long as the coordinator
    client has refused the first [k] submissions, the call is still inside
    its loop after any [fuel <= k] rounds, having submitted the transaction
    and slept 100 ms once per round, with nothing dropped and no callback
    lost.  As soon as submission number [k] is accepted the loop ends: the
    trace holds the [k] refused submissions with their pauses, the accepted
    one, and after it only reporting, so the transaction is submitted no
    further; the coordinator client holds the callback once. *)
Theorem send_compact_tx_retries_until_accepted {full_tx tx_error}
    (E : @env full_tx tx_error) (ctx : compact_tx) (cb : callback_id)
    (w : world) (k : nat) :
  (∀ j, j < k → coordinator_accepts E (w_coordinator_calls w + j) = false) →
  (∀ fuel, fuel ≤ k →
     ∃ w', send_compact_tx E fuel ctx cb w = Diverged w'
           ∧ w_trace w' = w_trace w ++ retries ctx fuel
           ∧ w_coordinator_cbs w' = w_coordinator_cbs w)
  ∧ (coordinator_accepts E (w_coordinator_calls w + k) = true →
     ∀ fuel, k < fuel →
       ∃ w' evs,
         send_compact_tx E fuel ctx cb w = Returned tt w'
         ∧ w_trace w'
           = w_trace w ++ retries ctx k
             ++ ev_coordinator_execute ctx true :: evs
         ∧ Forall (λ e, is_audit e = true) evs
         ∧ w_coordinator_cbs w'
           = w_coordinator_cbs w ++ [{| cc_res_cb := cb |}]
         ∧ w_coordinator_calls w' = w_coordinator_calls w + S k).
Proof.
  intros Hno. split.
  - intros fuel Hfuel. unfold send_compact_tx, bind.
    rewrite (submit_loop_refused E fuel ctx _ w)
      by (intros j Hj; apply Hno; lia).
    eexists. repeat split.
  - intros Hyes fuel Hfuel.
    apply send_compact_tx_accepted; assumption.
Qed.

Lemma send_compact_tx_retries_until_accepted_witness :
  (∃ w', send_compact_tx Sample.E 2 Sample.ctx 5 empty_world = Diverged w'
         ∧ w_trace w' = retries Sample.ctx 2
         ∧ w_coordinator_cbs w' = [])
  ∧ (∃ w' evs,
       send_compact_tx Sample.E 4 Sample.ctx 5 empty_world = Returned tt w'
       ∧ w_trace w'
         = retries Sample.ctx 3
           ++ ev_coordinator_execute Sample.ctx true :: evs
       ∧ Forall (λ e, is_audit e = true) evs
       ∧ w_coordinator_cbs w' = [{| cc_res_cb := 5 |}]
       ∧ w_coordinator_calls w' = 4).
Proof.
  assert (Hno : ∀ j, j < 3 →
            coordinator_accepts Sample.E
              (w_coordinator_calls (@empty_world nat nat) + j) = false).
  { intros [|[|[|j]]] Hj; [reflexivity|reflexivity|reflexivity|lia]. }
  destruct (send_compact_tx_retries_until_accepted
              Sample.E Sample.ctx 5 empty_world 3 Hno) as [Hloop Hdone].
  split.
  - apply (Hloop 2). lia.
  - apply (Hdone eq_refl 4). lia.
Defined.

(** C7, as the code has it.  A configuration with a nonzero attestation
    threshold and no sentinel endpoint other than this sentinel's own is not
    rejected on that account.  [init] returns, and it returns [true] exactly
    when a private key is configured for the sentinel and the RPC server
    starts; the controller then has no peer client and the candidate range
    [[0, 0]]. *)
Theorem init_accepts_sentinel_without_peers {full_tx tx_error}
    (E : @env full_tx tx_error) (c : controller) (w : world)
    (self : endpoint_t) :
  m_sentinel_endpoints (m_opts c) !! N.to_nat (m_sentinel_id c) = Some self →
  Forall (λ ep, ep = self) (m_sentinel_endpoints (m_opts c)) →
  m_sentinel_clients c = [] →
  (0 < m_attestation_threshold (m_opts c))%N →
  ∃ b c' w',
    init E c w = Returned (b, c') w'
    ∧ (b = true ↔
       is_Some (m_sentinel_private_keys (m_opts c) !! m_sentinel_id c)
       ∧ rpc_server_init_ok E = true)
    ∧ (b = true → m_sentinel_clients c' = [] ∧ m_dist c' = (0, 0)%N).
Proof.
  intros Hself Hall Hnone Hthr. unfold init, bind at 1.
  destruct (connect_database_returns E w) as (w0 & ->).
  destruct (decide (m_sentinel_endpoints (m_opts c) = [])) as [Hnil|_].
  { rewrite Hnil in Hself. discriminate Hself. }
  apply lookup_lt_Some in Hself as Hlt.
  replace (N.of_nat (length (m_sentinel_endpoints (m_opts c)))
             <=? m_sentinel_id c)%N with false
    by (symmetry; apply N.leb_gt; lia).
  destruct (m_sentinel_private_keys (m_opts c) !! m_sentinel_id c)
    as [skey|] eqn:Hkey.
  - unfold bind at 1, log, emit.
    match goal with |- context [init_connections E ?c1 ?w1] =>
      destruct (init_connections_lonely E c1 self w1 Hself Hall Hnone)
        as (w' & ->) end.
    eexists _, _, _. split; [reflexivity|]. split.
    + split; [intros ->; split; [eexists; reflexivity|reflexivity]|].
      intros [_ ->]. reflexivity.
    + intros _. split; reflexivity.
  - replace (0 <? m_attestation_threshold (m_opts c))%N with true
      by (symmetry; apply N.ltb_lt; exact Hthr).
    eexists _, _, _. split; [reflexivity|]. split.
    + split; [discriminate|]. intros [[? Hs] _]. discriminate Hs.
    + discriminate.
Qed.

Lemma init_accepts_sentinel_without_peers_witness :
  ∃ b c' w',
    init Sample.E Sample.lonely_c empty_world = Returned (b, c') w'
    ∧ (b = true ↔
       is_Some (m_sentinel_private_keys Sample.lonely_opts !! 0%N)
       ∧ rpc_server_init_ok Sample.E = true)
    ∧ (b = true → m_sentinel_clients c' = [] ∧ m_dist c' = (0, 0)%N).
Proof.
  apply (init_accepts_sentinel_without_peers
           Sample.E Sample.lonely_c empty_world (Sample.ep 0)).
  - reflexivity.
  - repeat constructor.
  - reflexivity.
  - reflexivity.
Defined.

(** C7, as stated, fails.  The single sentinel of [Sample.lonely_opts] must
    attest (threshold 1) and has no peer; its start-up succeeds, with an
    empty list of peer clients. *)
Lemma init_starts_sentinel_without_peers :
  ∃ c' w',
    controller_new 0 Sample.lonely_opts = inl Sample.lonely_c
    ∧ (0 < m_attestation_threshold Sample.lonely_opts)%N
    ∧ List.filter (λ ep, negb (bool_decide (ep = Sample.ep 0)))
        (m_sentinel_endpoints Sample.lonely_opts) = []
    ∧ init Sample.E Sample.lonely_c empty_world = Returned (true, c') w'
    ∧ m_sentinel_clients c' = [].
Proof.
  do 2 eexists. split; [reflexivity|]. split; [reflexivity|].
  split; [reflexivity|]. split; [vm_compute; reflexivity|reflexivity].
Qed.

(** C8, as the code has it.  For every sentinel identity and every nonempty
    coordinator endpoint list of fewer than [2 ^ 32] entries, the constructor
    builds the coordinator client for the endpoint at index
    [sentinel_id mod endpoint_count] of the configured list, and [init]
    leaves that client in place. *)
Theorem coordinator_endpoint_is_sentinel_id_mod_count
    (sentinel_id : N) (opts : options) :
  m_coordinator_endpoints opts ≠ [] →
  (N.of_nat (length (m_coordinator_endpoints opts)) < 2 ^ 32)%N →
  ∃ c,
    controller_new sentinel_id opts = inl c
    ∧ m_coordinator_endpoints opts
        !! N.to_nat
             (sentinel_id
                mod N.of_nat (length (m_coordinator_endpoints opts)))
      = Some (m_coordinator_client c)
    ∧ ∀ (full_tx tx_error : Type) (E : @env full_tx tx_error) w b c' w',
        init E c w = Returned (b, c') w' →
        m_coordinator_client c' = m_coordinator_client c.
Proof.
  intros Hne Hsmall. unfold controller_new.
  rewrite (static_cast_uint32_small _ Hsmall).
  assert (Hpos : N.of_nat (length (m_coordinator_endpoints opts)) ≠ 0%N).
  { destruct (m_coordinator_endpoints opts); [contradiction|]. cbn [length]. lia. }
  rewrite (proj2 (N.eqb_neq _ _) Hpos).
  pose proof (N.mod_upper_bound sentinel_id _ Hpos) as Hlt.
  destruct (lookup_lt_is_Some_2 (m_coordinator_endpoints opts)
              (N.to_nat (sentinel_id
                           mod N.of_nat (length (m_coordinator_endpoints opts)))))
    as [ep Hep]; [lia|].
  rewrite Hep. eexists. split; [reflexivity|]. split; [reflexivity|].
  intros full_tx tx_error E w b c' w' Hinit.
  apply (init_keeps_coordinator_client E _ _ _ _ _ Hinit).
Qed.

Lemma coordinator_endpoint_is_sentinel_id_mod_count_witness :
  ∃ c,
    controller_new 5 Sample.opts = inl c
    ∧ m_coordinator_endpoints Sample.opts !! N.to_nat (5 mod 2)
      = Some (m_coordinator_client c)
    ∧ ∀ (full_tx tx_error : Type) (E : @env full_tx tx_error) w b c' w',
        init E c w = Returned (b, c') w' →
        m_coordinator_client c' = m_coordinator_client c.
Proof.
  apply (coordinator_endpoint_is_sentinel_id_mod_count 5 Sample.opts).
  - discriminate.
  - reflexivity.
Defined.

(** C8, as stated, fails when the list has [2 ^ 32] entries or more, because
    the count is cast to 32 bits before the division.  With [2 ^ 32 + 1]
    endpoints the cast count is 1: sentinel 1 gets the client of endpoint 0,
    whereas [1 mod (2 ^ 32 + 1)] designates endpoint 1, a different one. *)
Lemma coordinator_endpoint_count_wraps :
  ∃ c,
    controller_new 1 Sample.crowded_opts = inl c
    ∧ m_coordinator_client c = Sample.coordinator_ep 0
    ∧ m_coordinator_endpoints Sample.crowded_opts
        !! N.to_nat
             (1 mod N.of_nat
                      (length (m_coordinator_endpoints Sample.crowded_opts)))
      = Some (Sample.coordinator_ep 1)
    ∧ Sample.coordinator_ep 0 ≠ Sample.coordinator_ep 1.
Proof.
  unfold controller_new. rewrite crowded_count.
  change (static_cast_uint32 (2 ^ 32 + 1)) with 1%N.
  change (1 mod (2 ^ 32 + 1))%N with 1%N.
  eexists. split; [reflexivity|]. split; [reflexivity|].
  split; [reflexivity|discriminate].
Qed.

(** C9, as the code has it.  [execute_transaction] never returns [false]:
    a call that returns, returns [true], whatever the transaction, and the
    outcome travels through the result callback only.  On a static violation
    the call returns [true] at once, after the callback has received
    [static_invalid] with the violation, once.  For a valid transaction the
    call invokes no callback, whether it returns or not; when it returns, the
    callback is held by exactly one new pending request, at a peer or at the
    coordinator client, whose reply will invoke it.  For a valid transaction
    the call returns exactly when its retry loop ends: with a threshold of at
    most 1, when the coordinator client accepts a submission; with a larger
    threshold, when a peer accepts the first request and no draw before it
    falls outside the client vector. *)
Theorem execute_transaction_returns_true {full_tx tx_error}
    (E : @env full_tx tx_error) (c : controller) (tx : full_tx)
    (cb : callback_id) (w : world) :
  (∀ fuel b w',
     execute_transaction E fuel c tx cb w = Returned b w' → b = true)
  ∧ (∀ fuel err,
       check_tx E tx = Some err →
       ∃ w', execute_transaction E fuel c tx cb w = Returned true w'
             ∧ w_trace w'
               = w_trace w
                 ++ [ev_log lvl_debug (rejected_message E err (tx_id E tx));
                     ev_result_callback cb
                       (Some {| m_tx_status := static_invalid;
                                m_tx_error := Some err |})]
             ∧ w_validate_cbs w' = w_validate_cbs w
             ∧ w_coordinator_cbs w' = w_coordinator_cbs w)
  ∧ (∀ fuel,
       check_tx E tx = None →
       (∃ evs,
          w_trace (final_world (execute_transaction E fuel c tx cb w))
          = w_trace w ++ evs
          ∧ ∀ cb', results_for cb' evs = [])
       ∧ ∀ w',
           execute_transaction E fuel c tx cb w = Returned true w' →
           (∃ i ctx,
              w_validate_cbs w'
              = w_validate_cbs w
                ++ [{| vc_sentinel_id := i; vc_requested := ∅; vc_tx := tx;
                       vc_result_callback := cb; vc_ctx := ctx |}]
              ∧ w_coordinator_cbs w' = w_coordinator_cbs w)
           ∨ (w_coordinator_cbs w'
              = w_coordinator_cbs w ++ [{| cc_res_cb := cb |}]
              ∧ w_validate_cbs w' = w_validate_cbs w))
  ∧ (∀ fuel,
       check_tx E tx = None →
       (m_attestation_threshold (m_opts c) ≤ 1)%N →
       (∃ w', execute_transaction E fuel c tx cb w = Returned true w')
       ↔ coordinator_accepts_within E w fuel)
  ∧ (∀ fuel,
       check_tx E tx = None →
       (1 < m_attestation_threshold (m_opts c))%N →
       (∃ w', execute_transaction E fuel c tx cb w = Returned true w')
       ↔ peer_dispatch_within E c ∅ w fuel).
Proof.
  split; [|split; [|split; [|split]]].
  - intros fuel b w'. apply execute_transaction_true.
  - intros fuel err Herr.
    rewrite (execute_transaction_invalid E _ _ _ _ _ _ Herr).
    eexists. split; [reflexivity|]. repeat split.
  - intros fuel Hok.
    rewrite (execute_transaction_valid E _ _ _ _ _ Hok).
    destruct (0 <? m_attestation_threshold (m_opts c))%N;
      (split;
       [ rewrite final_world_bind_ret;
         match goal with
         | |- context [gather_attestations E fuel c tx cb ?ctx ∅ ?w1] =>
             destruct (gather_attestations_invokes_nothing
                         E fuel c tx cb ctx ∅ w1) as (evs & Ht & Hres)
         end;
         world_simpl; rewrite Ht, <- app_assoc; eexists;
         (split; [reflexivity|]);
         intros cb'; unfold results_for; rewrite omap_app; cbn;
         apply Hres
       | intros w' Hret;
         apply bind_Returned_inv in Hret as ([] & w1 & Hg & Hr);
         injection Hr as <-;
         apply gather_attestations_returned in Hg as (_ & Hpend);
         world_simpl;
         destruct Hpend as [(i & Hv & Hk)|[Hk Hv]];
         [ left; eexists _, _; split; [exact Hv|exact Hk]
         | right; split; assumption ] ]).
  - intros fuel Hok Hthr.
    destruct (execute_transaction_submits E fuel c tx cb w Hok Hthr)
      as (ctx & w1 & Hc & ->).
    split.
    + intros (w' & Hret).
      apply bind_Returned_inv in Hret as ([] & w2 & Hs & _).
      apply send_compact_tx_returned_within in Hs.
      eapply coordinator_accepts_within_calls; [|exact Hs].
      symmetry. exact Hc.
    + intros Hacc.
      destruct (send_compact_tx_returns E fuel fuel ctx cb w1) as (w' & Hs);
        [|lia|].
      * eapply coordinator_accepts_within_calls; [|exact Hacc]. exact Hc.
      * unfold bind. rewrite Hs. unfold ret. eauto.
  - intros fuel Hok Hthr.
    destruct (execute_transaction_dispatches E fuel c tx cb w Hok Hthr)
      as (ctx & w1 & Hd & ->).
    split.
    + intros (w' & Hret).
      apply bind_Returned_inv in Hret as ([] & w2 & Hs & _).
      apply gather_loop_returned_within in Hs.
      eapply peer_dispatch_within_draws; [|exact Hs].
      symmetry. exact Hd.
    + intros Hacc.
      destruct (gather_loop_returns E fuel fuel c tx cb ctx ∅ w1)
        as (w' & Hs); [|lia|].
      * eapply peer_dispatch_within_draws; [|exact Hacc]. exact Hd.
      * unfold bind. rewrite Hs. unfold ret. eauto.
Qed.

Lemma execute_transaction_returns_true_witness :
  (∃ w', execute_transaction Sample.E 0 Sample.c 0 3 empty_world
         = Returned true w'
         ∧ w_trace w'
           = [] ++ [ev_log lvl_debug
                      (rejected_message Sample.E 7 (tx_id Sample.E 0));
                    ev_result_callback 3
                      (Some {| m_tx_status := static_invalid;
                               m_tx_error := Some 7 |})]
         ∧ w_validate_cbs w' = []
         ∧ w_coordinator_cbs w' = [])
  ∧ ((∃ w', execute_transaction Sample.E 4 Sample.open_c 1 3 empty_world
            = Returned true w')
     ↔ coordinator_accepts_within Sample.E empty_world 4)
  ∧ ((∃ w', execute_transaction Sample.E 1 Sample.c 1 3 empty_world
            = Returned true w')
     ↔ peer_dispatch_within Sample.E Sample.c ∅ empty_world 1)
  ∧ (∃ evs,
       w_trace (final_world
                  (execute_transaction Sample.E 1 Sample.c 1 3 empty_world))
       = [] ++ evs
       ∧ ∀ cb', results_for cb' evs = [])
  ∧ (∀ w',
       execute_transaction Sample.E 1 Sample.c 1 3 empty_world
       = Returned true w' →
       (∃ i ctx,
          w_validate_cbs w'
          = [] ++ [{| vc_sentinel_id := i; vc_requested := ∅; vc_tx := 1;
                      vc_result_callback := 3; vc_ctx := ctx |}]
          ∧ w_coordinator_cbs w' = [])
       ∨ (w_coordinator_cbs w' = [] ++ [{| cc_res_cb := 3 |}]
          ∧ w_validate_cbs w' = [])).
Proof.
  destruct (execute_transaction_returns_true
              Sample.E Sample.c 0 3 empty_world)
    as (_ & Hinvalid & _).
  destruct (execute_transaction_returns_true
              Sample.E Sample.open_c 1 3 empty_world)
    as (_ & _ & _ & Hsubmit & _).
  destruct (execute_transaction_returns_true
              Sample.E Sample.c 1 3 empty_world)
    as (_ & _ & Hpending & _ & Hdispatch).
  split; [|split; [|split]].
  - apply (Hinvalid 0 7). reflexivity.
  - apply (Hsubmit 4).
    + reflexivity.
    + cbn. lia.
  - apply (Hdispatch 1).
    + reflexivity.
    + cbn. lia.
  - apply (Hpending 1). reflexivity.
Defined.

(** C9, as stated, fails: the call does not return for every transaction.
    Transaction 1 is valid and needs no attestation, and the coordinator
    client never accepts a submission; [execute_transaction] stays in the
    submission loop of [send_compact_tx] and returns nothing, [true]
    included. *)
Lemma execute_transaction_may_never_return :
  ¬ ∃ fuel w',
      execute_transaction Sample.deaf_E fuel Sample.open_c 1 3 empty_world
      = Returned true w'.
Proof.
  intros (fuel & w' & Hret).
  destruct (sample_deaf_coordinator fuel) as (w'' & Hdiv).
  rewrite Hdiv in Hret. discriminate Hret.
Qed.



(** * Further properties of the controller *)

(** ** Start-up *)

Section InitMore.

Context {full_tx tx_error : Type}.
Variable E : @env full_tx tx_error.
Implicit Types (w : @world full_tx tx_error) (c : controller).

(** The second half of [init], once the sentinel's own endpoint is known:
    the clients of the other endpoints are appended to the vector, the range
    is set to its indices, and the start of the RPC server decides the
    result. *)
Lemma init_connections_returns c self w :
  m_sentinel_endpoints (m_opts c) !! N.to_nat (m_sentinel_id c) = Some self →
  ∃ w',
    init_connections E c w
    = Returned
        (rpc_server_init_ok E,
         set_clients
           (m_sentinel_clients c
            ++ clients_for E
                 (other_endpoints self (m_sentinel_endpoints (m_opts c))))
           (0,
            N.of_nat
              (length
                 (m_sentinel_clients c
                  ++ clients_for E
                       (other_endpoints self
                          (m_sentinel_endpoints (m_opts c))))) - 1)%N
           c)
        w'.
Proof.
  intros Hself. unfold init_connections, bind at 1.
  destruct (coordinator_init_loop_returns E 4 0 1 w) as (w1 & ->).
  rewrite Hself. unfold bind at 1.
  destruct (connect_sentinels_returns E self (m_sentinel_endpoints (m_opts c))
              (m_sentinel_clients c) w1) as (w2 & ->).
  fold (other_endpoints self (m_sentinel_endpoints (m_opts c))).
  fold (clients_for E (other_endpoints self (m_sentinel_endpoints (m_opts c)))).
  set (cls := m_sentinel_clients c ++ _).
  assert (Hd : match cls with
               | [] => 0%N
               | _ :: _ => (N.of_nat (length cls) - 1)%N
               end = (N.of_nat (length cls) - 1)%N)
    by (destruct cls; reflexivity).
  rewrite Hd.
  destruct (rpc_server_init_ok E); unfold bind, log, emit, ret;
    eexists; reflexivity.
Qed.


End InitMore.

(** X1. [init] always returns, and it returns [true] exactly when the
    sentinel endpoint list is not empty, the sentinel's identity is an index
    of it, a private key is configured for the sentinel or no attestation is
    required, and the RPC server starts.  The coordinator connection and the
    peer connections have no part in the result. *)
Theorem init_succeeds_iff {full_tx tx_error} (E : @env full_tx tx_error)
    (c : controller) (w : world) :
  ∃ b c' w',
    init E c w = Returned (b, c') w'
    ∧ (b = true ↔
       m_sentinel_endpoints (m_opts c) ≠ []
       ∧ (m_sentinel_id c
          < N.of_nat (length (m_sentinel_endpoints (m_opts c))))%N
       ∧ (is_Some (m_sentinel_private_keys (m_opts c) !! m_sentinel_id c)
          ∨ m_attestation_threshold (m_opts c) = 0%N)
       ∧ rpc_server_init_ok E = true).
Proof.
  unfold init, bind at 1.
  destruct (connect_database_returns E w) as (w0 & ->).
  destruct (decide (m_sentinel_endpoints (m_opts c) = [])) as [Hnil|Hne].
  { unfold bind, log, emit, ret. eexists _, _, _. split; [reflexivity|].
    split; [discriminate|]. intros (Hne & _). contradiction. }
  destruct (N.leb_spec
              (N.of_nat (length (m_sentinel_endpoints (m_opts c))))
              (m_sentinel_id c)) as [Hge|Hlt].
  { unfold bind, log, emit, ret. eexists _, _, _. split; [reflexivity|].
    split; [discriminate|]. intros (_ & Hlt & _). lia. }
  destruct (lookup_lt_is_Some_2 (m_sentinel_endpoints (m_opts c))
              (N.to_nat (m_sentinel_id c))) as [self Hself]; [lia|].
  destruct (m_sentinel_private_keys (m_opts c) !! m_sentinel_id c)
    as [skey|] eqn:Hkey.
  - unfold bind at 1, log, emit.
    match goal with |- context [init_connections E ?c1 ?w1] =>
      destruct (init_connections_returns E c1 self w1 Hself) as (w' & ->) end.
    eexists _, _, _. split; [reflexivity|]. split.
    + intros ->. repeat split; try assumption. left. eexists. reflexivity.
    + intros (_ & _ & _ & ->). reflexivity.
  - destruct (N.ltb_spec 0 (m_attestation_threshold (m_opts c))) as [Hpos|Hz].
    + unfold bind, log, emit, ret. eexists _, _, _. split; [reflexivity|].
      split; [discriminate|]. intros (_ & _ & [[? Hs]|Hz] & _).
      * discriminate Hs.
      * lia.
    + destruct (init_connections_returns E c self w0 Hself) as (w' & ->).
      eexists _, _, _. split; [reflexivity|]. split.
      * intros ->. repeat split; try assumption. right. lia.
      * intros (_ & _ & _ & ->). reflexivity.
Qed.

Lemma init_succeeds_iff_witness :
  ∃ b c' w',
    init Sample.E Sample.keyless_c empty_world = Returned (b, c') w'
    ∧ (b = true ↔
       m_sentinel_endpoints (m_opts Sample.keyless_c) ≠ []
       ∧ (m_sentinel_id Sample.keyless_c
          < N.of_nat
              (length (m_sentinel_endpoints (m_opts Sample.keyless_c))))%N
       ∧ (is_Some
            (m_sentinel_private_keys (m_opts Sample.keyless_c)
               !! m_sentinel_id Sample.keyless_c)
          ∨ m_attestation_threshold (m_opts Sample.keyless_c) = 0%N)
       ∧ rpc_server_init_ok Sample.E = true).
Proof. exact (init_succeeds_iff Sample.E Sample.keyless_c empty_world). Defined.





(** The controller after a successful [init]. *)
Lemma init_true_state {full_tx tx_error}
    (E : @env full_tx tx_error) (c c' : controller) (w w' : world) :
  init E c w = Returned (true, c') w' →
  ∃ self,
    m_sentinel_endpoints (m_opts c) !! N.to_nat (m_sentinel_id c) = Some self
    ∧ m_sentinel_clients c'
      = m_sentinel_clients c
        ++ clients_for E
             (other_endpoints self (m_sentinel_endpoints (m_opts c)))
    ∧ m_dist c' = (0, N.of_nat (length (m_sentinel_clients c')) - 1)%N
    ∧ m_privkey c'
      = default (m_privkey c)
          (m_sentinel_private_keys (m_opts c) !! m_sentinel_id c)
    ∧ m_sentinel_id c' = m_sentinel_id c
    ∧ m_opts c' = m_opts c.
Proof.
  unfold init, bind at 1.
  destruct (connect_database_returns E w) as (w0 & ->).
  destruct (decide (m_sentinel_endpoints (m_opts c) = [])) as [Hnil|Hne];
    [unfold bind, log, emit, ret; congruence|].
  destruct (N.leb_spec
              (N.of_nat (length (m_sentinel_endpoints (m_opts c))))
              (m_sentinel_id c)) as [Hge|Hlt];
    [unfold bind, log, emit, ret; congruence|].
  destruct (lookup_lt_is_Some_2 (m_sentinel_endpoints (m_opts c))
              (N.to_nat (m_sentinel_id c))) as [self Hself]; [lia|].
  destruct (m_sentinel_private_keys (m_opts c) !! m_sentinel_id c)
    as [skey|] eqn:Hkey.
  - unfold bind at 1, log, emit.
    match goal with |- context [init_connections E ?c1 ?w1] =>
      destruct (init_connections_returns E c1 self w1 Hself) as (w1' & ->) end.
    intros [= _ <- _]. exists self. repeat split. exact Hself.
  - destruct (0 <? m_attestation_threshold (m_opts c))%N;
      [unfold bind, log, emit, ret; congruence|].
    destruct (init_connections_returns E c self w0 Hself) as (w1' & ->).
    intros [= _ <- _]. exists self. repeat split. exact Hself.
Qed.


(** X4. What a successful [init] leaves in the controller.  The sentinel's
    own endpoint is the one at its identity; the client vector has gained
    one client per configured endpoint that differs from it, in the order of
    the list and whether or not the client started; the candidate range is
    the index range of the vector (or [[0, 0]] when it is empty); the
    private key is the configured one when there is one; identity and
    options are untouched. *)
Theorem init_builds_peer_clients {full_tx tx_error}
    (E : @env full_tx tx_error) (c c' : controller) (w w' : world) :
  init E c w = Returned (true, c') w' →
  ∃ self,
    m_sentinel_endpoints (m_opts c) !! N.to_nat (m_sentinel_id c) = Some self
    ∧ m_sentinel_clients c'
      = m_sentinel_clients c
        ++ clients_for E
             (other_endpoints self (m_sentinel_endpoints (m_opts c)))
    ∧ m_dist c' = (0, N.of_nat (length (m_sentinel_clients c')) - 1)%N
    ∧ m_privkey c'
      = default (m_privkey c)
          (m_sentinel_private_keys (m_opts c) !! m_sentinel_id c)
    ∧ m_sentinel_id c' = m_sentinel_id c
    ∧ m_opts c' = m_opts c.
Proof. apply init_true_state. Qed.

Lemma init_builds_peer_clients_witness :
  ∃ self,
    m_sentinel_endpoints Sample.opts !! N.to_nat 0 = Some self
    ∧ m_sentinel_clients Sample.c
      = [] ++ clients_for Sample.E
                (other_endpoints self (m_sentinel_endpoints Sample.opts))
    ∧ m_dist Sample.c
      = (0, N.of_nat (length (m_sentinel_clients Sample.c)) - 1)%N
    ∧ m_privkey Sample.c
      = default (repeat x00 32)
          (m_sentinel_private_keys Sample.opts !! 0%N)
    ∧ m_sentinel_id Sample.c = 0%N
    ∧ m_opts Sample.c = Sample.opts.
Proof.
  apply (init_builds_peer_clients Sample.E Sample.c0 Sample.c
           empty_world Sample.after_init).
  vm_compute. reflexivity.
Defined.

(** ** Quorum gathering *)

Section GatherMore.

Context {full_tx tx_error : Type}.
Variable E : @env full_tx tx_error.
Implicit Types (w : @world full_tx tx_error) (ctx : compact_tx)
  (r : gset N) (tx : full_tx) (evs : list (@event full_tx tx_error))
  (c : controller).

Lemma uniform_draw_index (n g : N) :
  (0 < n)%N → (uniform_draw (0, n - 1)%N g < n)%N.
Proof.
  intros Hn. unfold uniform_draw. cbn [fst snd].
  replace (n - 1 - 0 + 1)%N with n by lia.
  rewrite N.add_0_l. apply N.mod_upper_bound. lia.
Qed.

Lemma submit_loop_defined fuel ctx cb w w' :
  submit_loop E fuel ctx cb w ≠ Undefined w'.
Proof.
  revert w. induction fuel as [|fuel IH]; intros w; [discriminate|].
  rewrite submit_loop_S.
  destruct (coordinator_accepts E (w_coordinator_calls w));
    [discriminate|apply IH].
Qed.

Lemma send_compact_tx_defined fuel ctx cb w w' :
  send_compact_tx E fuel ctx cb w ≠ Undefined w'.
Proof.
  unfold send_compact_tx, bind.
  destruct (submit_loop E fuel ctx {| cc_res_cb := cb |} w)
    as [[] w1|w1|w1] eqn:Hs; [|discriminate|].
  - destruct (audits_record_transaction E ctx w1) as ([] & w2 & -> & _).
    discriminate.
  - exfalso. exact (submit_loop_defined _ _ _ _ _ Hs).
Qed.

(** With the range on the indices of a nonempty client vector, no draw
    indexes the vector out of range. *)
Lemma gather_loop_defined fuel c tx cb ctx r w w' :
  dist_covers_clients c →
  gather_loop E fuel c tx cb ctx r w ≠ Undefined w'.
Proof.
  intros [Hne Hdist]. revert w.
  induction fuel as [|fuel IH]; intros w; [discriminate|].
  rewrite gather_loop_S. cbv zeta.
  destruct (decide _); [apply IH|].
  rewrite Hdist.
  destruct (lookup_lt_is_Some_2 (m_sentinel_clients c)
              (N.to_nat
                 (uniform_draw
                    (0, N.of_nat (length (m_sentinel_clients c)) - 1)%N
                    (rand E (w_draws w))))) as [cl ->].
  { pose proof (uniform_draw_index
                  (N.of_nat (length (m_sentinel_clients c)))
                  (rand E (w_draws w))) as Hlt.
    destruct (m_sentinel_clients c); [contradiction|].
    cbn [length] in *. lia. }
  destruct (peer_accepts E (w_draws w) _); [discriminate|].
  rewrite <- Hdist. apply IH.
Qed.

Lemma gather_attestations_defined fuel c tx cb ctx r w w' :
  dist_covers_clients c →
  gather_attestations E fuel c tx cb ctx r w ≠ Undefined w'.
Proof.
  intros Hc. rewrite gather_attestations_eq.
  destruct (_ <? _)%N;
    [apply gather_loop_defined; exact Hc|apply send_compact_tx_defined].
Qed.

Lemma execute_transaction_defined fuel c tx cb w w' :
  dist_covers_clients c →
  execute_transaction E fuel c tx cb w ≠ Undefined w'.
Proof.
  intros Hc. destruct (check_tx E tx) as [err|] eqn:Hok.
  - rewrite (execute_transaction_invalid E _ _ _ _ _ _ Hok). discriminate.
  - rewrite (execute_transaction_valid E _ _ _ _ _ Hok).
    destruct (0 <? _)%N; unfold bind;
      match goal with |- context [gather_attestations E ?f ?c ?tx ?cb ?ctx ?r ?w0] =>
        pose proof (gather_attestations_defined f c tx cb ctx r w0) as Hg;
        destruct (gather_attestations E f c tx cb ctx r w0) as [[] w1|w1|w1] end;
      try discriminate; intros [= <-]; exact (Hg _ Hc eq_refl).
Qed.

Lemma deliver_defined fuel c rp w w' :
  dist_covers_clients c →
  deliver E fuel c rp w ≠ Undefined w'.
Proof.
  intros Hc. destruct rp as [k [a|]|k res].
  - destruct (w_validate_cbs w !! k) as [cl|] eqn:Hk.
    + rewrite (deliver_attestation E _ _ _ _ _ _ Hk).
      apply gather_attestations_defined. exact Hc.
    + unfold deliver, bind, take_validate_cb. rewrite Hk. discriminate.
  - destruct (w_validate_cbs w !! k) as [cl|] eqn:Hk.
    + rewrite (deliver_invalidation E _ _ _ _ _ Hk). discriminate.
    + unfold deliver, bind, take_validate_cb. rewrite Hk. discriminate.
  - unfold deliver, bind, take_coordinator_cb.
    destruct (w_coordinator_cbs w !! k) as [cl|]; [|discriminate].
    destruct res as [[]|]; discriminate.
Qed.

End GatherMore.

(** X5. After a successful [init] that found at least one peer, the
    controller never indexes its client vector out of range: whatever the
    random engine, the peers and the coordinator do, neither
    [execute_transaction] nor the handling of a reply runs into undefined
    behaviour. *)
Theorem draws_index_existing_clients {full_tx tx_error}
    (E : @env full_tx tx_error) (c0 c : controller) (w0 w1 : world) :
  init E c0 w0 = Returned (true, c) w1 →
  m_sentinel_clients c ≠ [] →
  (∀ fuel tx cb w w', execute_transaction E fuel c tx cb w ≠ Undefined w')
  ∧ (∀ fuel rp w w', deliver E fuel c rp w ≠ Undefined w').
Proof.
  intros Hinit Hne.
  destruct (init_true_state E c0 c w0 w1 Hinit)
    as (self & _ & _ & Hdist & _).
  assert (Hc : dist_covers_clients c) by (split; assumption).
  split.
  - intros fuel tx cb w w'. apply execute_transaction_defined. exact Hc.
  - intros fuel rp w w'. apply deliver_defined. exact Hc.
Qed.

Lemma draws_index_existing_clients_witness :
  execute_transaction Sample.E 1 Sample.c 1 3 empty_world
  ≠ Undefined empty_world
  ∧ deliver Sample.E 1 Sample.c (peer_reply 0 (Some Sample.peer_attestation))
      Sample.after_execute
    ≠ Undefined empty_world.
Proof.
  destruct (draws_index_existing_clients Sample.E Sample.c0 Sample.c
              empty_world Sample.after_init) as [Hex Hde].
  - vm_compute. reflexivity.
  - discriminate.
  - split; [apply Hex|apply Hde].
Defined.

(** X6. A sentinel without any peer that needs more than its own
    attestation cannot gather: with an empty client vector and the range
    [[0, 0]] that [init] sets for it, [execute_transaction] on a valid
    transaction with a threshold of two or more signs, enters the gathering
    and indexes the empty vector at its first draw.  No peer request, no
    submission and no callback precede the fault. *)
Theorem gathering_without_peers_is_undefined {full_tx tx_error}
    (E : @env full_tx tx_error) (c : controller) (tx : full_tx)
    (cb : callback_id) (w : world) (fuel : nat) :
  m_sentinel_clients c = [] →
  m_dist c = (0, 0)%N →
  check_tx E tx = None →
  (1 < m_attestation_threshold (m_opts c))%N →
  0 < fuel →
  ∃ w',
    execute_transaction E fuel c tx cb w = Undefined w'
    ∧ w_trace w'
      = w_trace w
        ++ [ev_compact_tx tx;
            ev_sign (compact_tx_from E tx);
            ev_gather
              (insert_attestation
                 (sign E (compact_tx_from E tx) (m_privkey c))
                 (compact_tx_from E tx)) ∅]
    ∧ w_validate_cbs w' = w_validate_cbs w
    ∧ w_coordinator_cbs w' = w_coordinator_cbs w.
Proof.
  intros Hnone Hdist Hok Hthr Hfuel.
  destruct fuel as [|fuel]; [lia|].
  rewrite (execute_transaction_valid E _ _ _ _ _ Hok).
  replace (0 <? m_attestation_threshold (m_opts c))%N with true
    by (symmetry; apply N.ltb_lt; lia).
  unfold bind at 1. rewrite gather_attestations_eq.
  replace (N.of_nat (size (m_attestations
             (insert_attestation
                (sign E (compact_tx_from E tx) (m_privkey c))
                (compact_tx_from E tx))))
           <? m_attestation_threshold (m_opts c))%N with true.
  2:{ symmetry. apply N.ltb_lt. cbn.
      rewrite union_empty_r_L, size_singleton. lia. }
  rewrite gather_loop_S. cbv zeta. rewrite Hdist, Hnone.
  change (uniform_draw (0, 0)%N ?g) with (0 + g mod 1)%N.
  destruct (decide _) as [Hin|_]; [apply not_elem_of_empty in Hin; contradiction|].
  rewrite N.mod_1_r. cbn. eexists. split; [reflexivity|]. cbn.
  rewrite <- app_assoc. repeat split.
Qed.

Lemma gathering_without_peers_is_undefined_witness :
  ∃ w',
    execute_transaction Sample.E 1 Sample.stranded_c 1 3 empty_world
    = Undefined w'
    ∧ w_trace w'
      = [] ++ [ev_compact_tx 1;
               ev_sign (compact_tx_from Sample.E 1);
               ev_gather
                 (insert_attestation
                    (sign Sample.E (compact_tx_from Sample.E 1) Sample.key0)
                    (compact_tx_from Sample.E 1)) ∅]
    ∧ w_validate_cbs w' = []
    ∧ w_coordinator_cbs w' = [].
Proof.
  apply (gathering_without_peers_is_undefined
           Sample.E Sample.stranded_c 1 3 empty_world 1).
  - reflexivity.
  - reflexivity.
  - reflexivity.
  - reflexivity.
  - lia.
Defined.

(** X7. The dispatch loop has no exit of its own.  When every index the
    distribution can produce is already in [requested], each draw is skipped:
    however long the loop is followed it is still running, has consumed one
    draw per round, and has neither dispatched a request nor touched a
    callback. *)
Theorem gather_loop_spins_when_all_requested {full_tx tx_error}
    (E : @env full_tx tx_error) (c : controller) (tx : full_tx)
    (cb : callback_id) (ctx : compact_tx) (requested : gset N) (w : world)
    (fuel : nat) :
  (∀ g, uniform_draw (m_dist c) g ∈ requested) →
  gather_loop E fuel c tx cb ctx requested w
  = Diverged
      {| w_draws := w_draws w + fuel;
         w_coordinator_calls := w_coordinator_calls w;
         w_db_calls := w_db_calls w;
         w_validate_cbs := w_validate_cbs w;
         w_coordinator_cbs := w_coordinator_cbs w;
         w_trace := w_trace w |}.
Proof.
  intros Hall. revert w. induction fuel as [|fuel IH]; intros w.
  - cbn. unfold diverge. rewrite Nat.add_0_r. destruct w; reflexivity.
  - rewrite gather_loop_S. cbv zeta.
    destruct (decide _) as [_|Hout]; [|exfalso; apply Hout, Hall].
    rewrite IH. cbn. do 2 f_equal. lia.
Qed.

Lemma gather_loop_spins_when_all_requested_witness :
  gather_loop Sample.E 3 Sample.stranded_c 1 3 Sample.ctx {[0%N]} empty_world
  = Diverged
      {| w_draws := 0 + 3;
         w_coordinator_calls := 0;
         w_db_calls := 0;
         w_validate_cbs := [];
         w_coordinator_cbs := [];
         w_trace := [] |}.
Proof.
  apply (gather_loop_spins_when_all_requested
           Sample.E Sample.stranded_c 1 3 Sample.ctx {[0%N]} empty_world 3).
  intros g. change (uniform_draw (m_dist Sample.stranded_c) g)
              with (0 + g mod 1)%N.
  rewrite N.mod_1_r. apply elem_of_singleton. reflexivity.
Defined.

Section QuorumMore.

Context {full_tx tx_error : Type}.
Variable E : @env full_tx tx_error.
Implicit Types (w : @world full_tx tx_error) (ctx : compact_tx)
  (r : gset N) (tx : full_tx) (evs : list (@event full_tx tx_error))
  (c : controller).

Lemma dispatches_submit_nothing tx r evs :
  Forall (dispatch_to_fresh tx r) evs → submitted evs = [].
Proof.
  intros Hs. eapply omap_Forall_None; [exact Hs|].
  intros e (j & ok & -> & _). reflexivity.
Qed.

Lemma submissions_sign_nothing ctx evs :
  Forall (submission_of ctx) evs → signed_of evs = [].
Proof.
  intros Hs. eapply omap_Forall_None; [exact Hs|].
  intros e [[ok ->]|[->|He]]; try reflexivity.
  destruct e; try discriminate He; reflexivity.
Qed.

(** Whatever an entry into [gather_attestations] submits is the compact
    transaction it received, and that one holds a quorum. *)
Lemma gather_attestations_submissions fuel c tx cb ctx r w :
  ∃ evs,
    w_trace (final_world (gather_attestations E fuel c tx cb ctx r w))
    = w_trace w ++ evs
    ∧ signed_of evs = []
    ∧ Forall (λ s : compact_tx * bool,
                s.1 = ctx
                ∧ (m_attestation_threshold (m_opts c)
                   ≤ N.of_nat (size (m_attestations s.1)))%N)
        (submitted evs).
Proof.
  rewrite gather_attestations_eq.
  destruct (N.ltb_spec (N.of_nat (size (m_attestations ctx)))
              (m_attestation_threshold (m_opts c))) as [Hlt|Hge].
  - match goal with |- context [gather_loop E fuel c tx cb ctx r ?w1] =>
      destruct (gather_loop_events E fuel c tx cb ctx r w1)
        as (_ & (evs & Ht & Hs) & _) end.
    world_simpl. exists (ev_gather ctx r :: evs).
    rewrite Ht, <- app_assoc. split; [reflexivity|]. split.
    + cbn. eapply omap_Forall_None; [exact Hs|].
      intros e (j & ok & -> & _). reflexivity.
    + cbn. change (omap _ evs) with (submitted evs).
      rewrite (dispatches_submit_nothing _ _ _ Hs). constructor.
  - match goal with |- context [send_compact_tx E fuel ctx cb ?w1] =>
      destruct (send_compact_tx_events E fuel ctx cb w1)
        as (_ & _ & evs & Ht & Hs) end.
    world_simpl.
    exists ([ev_gather ctx r; ev_log lvl_debug (accepted_message E ctx)] ++ evs).
    rewrite Ht, <- app_assoc. split; [reflexivity|]. split.
    + cbn. apply (submissions_sign_nothing _ _ Hs).
    + cbn. change (omap _ evs) with (submitted evs).
      eapply Forall_impl; [apply (submitted_of _ _ Hs)|].
      intros s ->. split; [reflexivity|exact Hge].
Qed.

(** A coordinator reply reaches the callback the client holds, once. *)
Lemma deliver_coordinator_reply fuel c k res cl w :
  w_coordinator_cbs w !! k = Some cl →
  deliver E fuel c (coordinator_reply k res) w
  = Returned tt
      {| w_draws := w_draws w;
         w_coordinator_calls := w_coordinator_calls w;
         w_db_calls := w_db_calls w;
         w_validate_cbs := w_validate_cbs w;
         w_coordinator_cbs := delete k (w_coordinator_cbs w);
         w_trace :=
           w_trace w ++ [ev_result_callback (cc_res_cb cl) (translated res)] |}.
Proof.
  intros Hk. unfold deliver, bind, take_coordinator_cb. rewrite Hk.
  destruct res as [[]|]; reflexivity.
Qed.

End QuorumMore.

(** X8. Nothing is submitted short of a quorum.  Whatever
    [execute_transaction] or the handling of a reply hands to the coordinator
    client, accepted or not, is a compact transaction whose attestation set
    has at least [m_attestation_threshold] members. *)
Theorem submissions_hold_a_quorum {full_tx tx_error}
    (E : @env full_tx tx_error) (c : controller) (fuel : nat) (w : world) :
  (∀ tx cb, ∃ evs,
      w_trace (final_world (execute_transaction E fuel c tx cb w))
      = w_trace w ++ evs
      ∧ Forall (λ s : compact_tx * bool,
                  (m_attestation_threshold (m_opts c)
                   ≤ N.of_nat (size (m_attestations s.1)))%N)
          (submitted evs))
  ∧ (∀ rp, ∃ evs,
       w_trace (final_world (deliver E fuel c rp w)) = w_trace w ++ evs
       ∧ Forall (λ s : compact_tx * bool,
                   (m_attestation_threshold (m_opts c)
                    ≤ N.of_nat (size (m_attestations s.1)))%N)
           (submitted evs)).
Proof.
  split.
  - intros tx cb. destruct (check_tx E tx) as [err|] eqn:Hok.
    + rewrite (execute_transaction_invalid E _ _ _ _ _ _ Hok). world_simpl.
      eexists. split; [reflexivity|]. constructor.
    + rewrite (execute_transaction_valid E _ _ _ _ _ Hok).
      destruct (0 <? _)%N; rewrite final_world_bind_ret;
        match goal with |- context [gather_attestations E ?f ?c ?tx ?cb ?ctx ?r ?w0] =>
          destruct (gather_attestations_submissions E f c tx cb ctx r w0)
            as (evs & Ht & _ & Hs) end;
        world_simpl; rewrite Ht, <- app_assoc;
        (eexists; split; [reflexivity|]); cbn;
        (eapply Forall_impl; [exact Hs|]); intros s [_ Hq]; exact Hq.
  - intros [k [a|]|k res].
    + destruct (w_validate_cbs w !! k) as [cl|] eqn:Hk.
      * rewrite (deliver_attestation E _ _ _ _ _ _ Hk).
        match goal with |- context [gather_attestations E ?f ?c ?tx ?cb ?ctx ?r ?w0] =>
          destruct (gather_attestations_submissions E f c tx cb ctx r w0)
            as (evs & Ht & _ & Hs) end.
        world_simpl. exists evs. split; [exact Ht|].
        eapply Forall_impl; [exact Hs|]. intros s [_ Hq]; exact Hq.
      * unfold deliver, bind, take_validate_cb. rewrite Hk. world_simpl.
        exists []. rewrite app_nil_r. split; [reflexivity|constructor].
    + destruct (w_validate_cbs w !! k) as [cl|] eqn:Hk.
      * rewrite (deliver_invalidation E _ _ _ _ _ Hk). world_simpl.
        eexists. split; [reflexivity|]. constructor.
      * unfold deliver, bind, take_validate_cb. rewrite Hk. world_simpl.
        exists []. rewrite app_nil_r. split; [reflexivity|constructor].
    + destruct (w_coordinator_cbs w !! k) as [cl|] eqn:Hk.
      * rewrite (deliver_coordinator_reply E _ _ _ _ _ _ Hk). world_simpl.
        eexists. split; [reflexivity|]. constructor.
      * unfold deliver, bind, take_coordinator_cb. rewrite Hk. world_simpl.
        exists []. rewrite app_nil_r. split; [reflexivity|constructor].
Qed.

(** X9. With an attestation threshold of 1 the sentinel's own attestation is
    the quorum.  A valid transaction is signed once, with the controller's
    private key, no peer is asked and none is left holding a callback, and
    every submission carries the compact transaction with exactly that one
    attestation. *)
Theorem threshold_one_submits_own_attestation {full_tx tx_error}
    (E : @env full_tx tx_error) (c : controller) (tx : full_tx)
    (cb : callback_id) (w : world) (fuel : nat) :
  check_tx E tx = None →
  m_attestation_threshold (m_opts c) = 1%N →
  ∃ evs,
    w_trace (final_world (execute_transaction E fuel c tx cb w))
    = w_trace w ++ evs
    ∧ signed_of evs = [compact_tx_from E tx]
    ∧ dispatched_peers evs = []
    ∧ Forall (λ s : compact_tx * bool,
                m_id s.1 = tx_id E tx
                ∧ m_attestations s.1
                  = {[sign E (compact_tx_from E tx) (m_privkey c)]})
        (submitted evs)
    ∧ w_validate_cbs (final_world (execute_transaction E fuel c tx cb w))
      = w_validate_cbs w.
Proof.
  intros Hok Hthr.
  rewrite (execute_transaction_valid E _ _ _ _ _ Hok), Hthr.
  cbn [N.ltb N.compare]. rewrite final_world_bind_ret.
  rewrite gather_attestations_eq, Hthr.
  replace (N.of_nat (size (m_attestations
             (insert_attestation
                (sign E (compact_tx_from E tx) (m_privkey c))
                (compact_tx_from E tx)))) <? 1)%N with false.
  2:{ symmetry. apply N.ltb_ge. cbn.
      rewrite union_empty_r_L, size_singleton. lia. }
  world_simpl.
  match goal with |- context [send_compact_tx E fuel ?ctx cb ?w1] =>
    destruct (send_compact_tx_events E fuel ctx cb w1)
      as (_ & Hv & evs & Ht & Hs) end.
  world_simpl.
  destruct (submissions_make_no_request _ evs Hs) as [_ Hd].
  eexists. rewrite Ht, Hv, <- !app_assoc. split; [reflexivity|].
  repeat split.
  - cbn. change (omap _ evs) with (signed_of evs).
    rewrite (submissions_sign_nothing _ _ Hs). reflexivity.
  - cbn. exact Hd.
  - cbn. eapply Forall_impl; [apply (submitted_of _ _ Hs)|].
    intros s ->. split; [reflexivity|]. cbn. apply union_empty_r_L.
Qed.

Lemma threshold_one_submits_own_attestation_witness :
  ∃ evs,
    w_trace (final_world
               (execute_transaction Sample.E 2 Sample.lonely_c 1 3
                  empty_world))
    = [] ++ evs
    ∧ signed_of evs = [compact_tx_from Sample.E 1]
    ∧ dispatched_peers evs = []
    ∧ Forall (λ s : compact_tx * bool,
                m_id s.1 = tx_id Sample.E 1
                ∧ m_attestations s.1
                  = {[sign Sample.E (compact_tx_from Sample.E 1)
                        (m_privkey Sample.lonely_c)]})
        (submitted evs)
    ∧ w_validate_cbs
        (final_world
           (execute_transaction Sample.E 2 Sample.lonely_c 1 3 empty_world))
      = [].
Proof.
  apply (threshold_one_submits_own_attestation
           Sample.E Sample.lonely_c 1 3 empty_world 2).
  - reflexivity.
  - reflexivity.
Defined.

(** X10. The reply that completes the quorum sends the transaction on, once.
    When a peer's attestation brings the attestation set of the pending
    request to the threshold, no further peer is asked: the accumulated
    compact transaction, the new attestation included, is submitted until the
    coordinator client accepts it (after [n] refusals), the client then holds
    the caller's callback, and the peer's closure is gone. *)
Theorem reply_completing_quorum_submits {full_tx tx_error}
    (E : @env full_tx tx_error) (c : controller) (w : world) (k n fuel : nat)
    (cl : validate_closure) (a : attestation) :
  w_validate_cbs w !! k = Some cl →
  (m_attestation_threshold (m_opts c)
   ≤ N.of_nat (size ({[a]} ∪ m_attestations (vc_ctx cl))))%N →
  (∀ j, j < n → coordinator_accepts E (w_coordinator_calls w + j) = false) →
  coordinator_accepts E (w_coordinator_calls w + n) = true →
  n < fuel →
  ∃ w' evs,
    deliver E fuel c (peer_reply k (Some a)) w = Returned tt w'
    ∧ w_trace w'
      = w_trace w
        ++ [ev_gather (insert_attestation a (vc_ctx cl))
              ({[vc_sentinel_id cl]} ∪ vc_requested cl);
            ev_log lvl_debug
              (accepted_message E (insert_attestation a (vc_ctx cl)))]
        ++ retries (insert_attestation a (vc_ctx cl)) n
        ++ ev_coordinator_execute (insert_attestation a (vc_ctx cl)) true
           :: evs
    ∧ Forall (λ e, is_audit e = true) evs
    ∧ w_validate_cbs w' = delete k (w_validate_cbs w)
    ∧ w_coordinator_cbs w'
      = w_coordinator_cbs w ++ [{| cc_res_cb := vc_result_callback cl |}].
Proof.
  intros Hk Hq Hno Hyes Hfuel.
  rewrite (deliver_attestation E _ _ _ _ _ _ Hk), gather_attestations_eq.
  replace (N.of_nat (size (m_attestations (insert_attestation a (vc_ctx cl))))
           <? m_attestation_threshold (m_opts c))%N with false
    by (symmetry; apply N.ltb_ge; exact Hq).
  match goal with |- context [send_compact_tx E fuel ?ctx ?cb ?w1] =>
    pose proof (send_compact_tx_events E fuel ctx cb w1) as (_ & Hv & _);
    destruct (send_compact_tx_accepted E ctx cb w1 n fuel)
      as (w' & evs & Heq & Ht & Ha & Hc & _) end;
    [exact Hno|exact Hyes|exact Hfuel|].
  rewrite Heq in Hv |- *. world_simpl. exists w', evs.
  split; [reflexivity|].
  split; [rewrite Ht, <- !app_assoc; reflexivity|].
  split; [exact Ha|]. split; [exact Hv|exact Hc].
Qed.

Lemma reply_completing_quorum_submits_witness :
  ∃ w' evs,
    deliver Sample.E 4 Sample.c (peer_reply 0 (Some Sample.peer_attestation))
      Sample.after_execute
    = Returned tt w'
    ∧ w_trace w'
      = w_trace Sample.after_execute
        ++ [ev_gather
              (insert_attestation Sample.peer_attestation
                 (vc_ctx Sample.first_closure))
              ({[vc_sentinel_id Sample.first_closure]}
               ∪ vc_requested Sample.first_closure);
            ev_log lvl_debug
              (accepted_message Sample.E
                 (insert_attestation Sample.peer_attestation
                    (vc_ctx Sample.first_closure)))]
        ++ retries
             (insert_attestation Sample.peer_attestation
                (vc_ctx Sample.first_closure)) 3
        ++ ev_coordinator_execute
             (insert_attestation Sample.peer_attestation
                (vc_ctx Sample.first_closure)) true
           :: evs
    ∧ Forall (λ e, is_audit e = true) evs
    ∧ w_validate_cbs w' = delete 0 (w_validate_cbs Sample.after_execute)
    ∧ w_coordinator_cbs w'
      = w_coordinator_cbs Sample.after_execute
        ++ [{| cc_res_cb := vc_result_callback Sample.first_closure |}].
Proof.
  apply (reply_completing_quorum_submits
           Sample.E Sample.c Sample.after_execute 0 3 4
           Sample.first_closure Sample.peer_attestation).
  - vm_compute. reflexivity.
  - vm_compute. discriminate.
  - intros [|[|[|j]]] Hj; [reflexivity|reflexivity|reflexivity|lia].
  - reflexivity.
  - lia.
Defined.

(** X11. From the call to the caller's result, when the sentinel's own
    attestation suffices (threshold 0 or 1).  A valid transaction is
    submitted as soon as the coordinator client accepts; the client then
    holds one more callback, the last one; and whatever outcome the
    coordinator reports to it reaches the caller's callback exactly once, as
    [confirmed] for [true], [state_invalid] for [false] and as an absent
    result otherwise, after which the client holds what it held before. *)
Theorem execute_then_coordinator_reply {full_tx tx_error}
    (E : @env full_tx tx_error) (c : controller) (tx : full_tx)
    (cb : callback_id) (w : world) (n fuel : nat) :
  check_tx E tx = None →
  (m_attestation_threshold (m_opts c) ≤ 1)%N →
  (∀ j, j < n → coordinator_accepts E (w_coordinator_calls w + j) = false) →
  coordinator_accepts E (w_coordinator_calls w + n) = true →
  n < fuel →
  ∃ w1,
    execute_transaction E fuel c tx cb w = Returned true w1
    ∧ results_for cb (drop (length (w_trace w)) (w_trace w1)) = []
    ∧ ∀ res fuel',
        ∃ w2,
          deliver E fuel' c
            (coordinator_reply (length (w_coordinator_cbs w)) res) w1
          = Returned tt w2
          ∧ w_trace w2 = w_trace w1 ++ [ev_result_callback cb (translated res)]
          ∧ w_coordinator_cbs w2 = w_coordinator_cbs w
          ∧ w_validate_cbs w2 = w_validate_cbs w.
Proof.
  intros Hok Hthr Hno Hyes Hfuel.
  rewrite (execute_transaction_valid E _ _ _ _ _ Hok).
  assert (Hsub : ∀ ctx (w0 : world),
            w_coordinator_calls w0 = w_coordinator_calls w →
            w_coordinator_cbs w0 = w_coordinator_cbs w →
            w_validate_cbs w0 = w_validate_cbs w →
            (∃ pre, w_trace w0 = w_trace w ++ pre ∧ results_for cb pre = []) →
            ∃ w1,
              send_compact_tx E fuel ctx cb w0 = Returned tt w1
              ∧ results_for cb (drop (length (w_trace w)) (w_trace w1)) = []
              ∧ w_coordinator_cbs w1
                = w_coordinator_cbs w ++ [{| cc_res_cb := cb |}]
              ∧ w_validate_cbs w1 = w_validate_cbs w).
  { intros ctx w0 Hcalls Hcbs Hvs (pre & Hpre & Hres).
    pose proof (send_compact_tx_events E fuel ctx cb w0) as (_ & Hv & _).
    destruct (send_compact_tx_accepted E ctx cb w0 n fuel)
      as (w1 & evs & Heq & Ht & Ha & Hc & _);
      [rewrite Hcalls; exact Hno|rewrite Hcalls; exact Hyes|exact Hfuel|].
    rewrite Heq in Hv. world_simpl. exists w1. split; [exact Heq|].
    split; [|split; congruence].
    rewrite Ht, Hpre, <- app_assoc, drop_app_length.
    unfold results_for. rewrite !omap_app.
    fold (results_for cb pre). rewrite Hres. cbn.
    rewrite (omap_Forall_None _ _ _ (retries_are_submissions ctx n)).
    2:{ intros e [[ok ->]|[->|He]]; try reflexivity.
        destruct e; try discriminate He; reflexivity. }
    cbn. eapply omap_Forall_None; [exact Ha|].
    intros e He. destruct e; try discriminate He; reflexivity. }
  assert (Hdone : ∀ w1,
            w_coordinator_cbs w1
            = w_coordinator_cbs w ++ [{| cc_res_cb := cb |}] →
            w_validate_cbs w1 = w_validate_cbs w →
            ∀ res fuel',
              ∃ w2,
                deliver E fuel' c
                  (coordinator_reply (length (w_coordinator_cbs w)) res) w1
                = Returned tt w2
                ∧ w_trace w2
                  = w_trace w1 ++ [ev_result_callback cb (translated res)]
                ∧ w_coordinator_cbs w2 = w_coordinator_cbs w
                ∧ w_validate_cbs w2 = w_validate_cbs w).
  { intros w1 Hc Hv res fuel'.
    assert (Hk : w_coordinator_cbs w1 !! length (w_coordinator_cbs w)
                 = Some {| cc_res_cb := cb |}).
    { rewrite Hc. apply list_lookup_middle. reflexivity. }
    rewrite (deliver_coordinator_reply E _ _ _ _ _ _ Hk).
    eexists. split; [reflexivity|]. world_simpl.
    split; [reflexivity|]. split; [|exact Hv].
    rewrite Hc, delete_middle, app_nil_r. reflexivity. }
  destruct (0 <? m_attestation_threshold (m_opts c))%N eqn:Hpos;
    unfold bind at 1; rewrite gather_attestations_eq.
  - replace (N.of_nat (size (m_attestations
               (insert_attestation
                  (sign E (compact_tx_from E tx) (m_privkey c))
                  (compact_tx_from E tx))))
             <? m_attestation_threshold (m_opts c))%N with false.
    2:{ symmetry. apply N.ltb_ge. cbn.
        rewrite union_empty_r_L, size_singleton. lia. }
    match goal with |- context [send_compact_tx E fuel ?ctx cb ?w0] =>
      destruct (Hsub ctx w0) as (w1 & -> & Hres & Hc & Hv) end;
      try reflexivity.
    { world_simpl. rewrite <- app_assoc. eexists. split; [reflexivity|].
      reflexivity. }
    exists w1. split; [reflexivity|]. split; [exact Hres|].
    apply Hdone; assumption.
  - apply N.ltb_ge in Hpos.
    replace (N.of_nat (size (m_attestations (compact_tx_from E tx)))
             <? m_attestation_threshold (m_opts c))%N with false
      by (symmetry; apply N.ltb_ge; cbn; lia).
    match goal with |- context [send_compact_tx E fuel ?ctx cb ?w0] =>
      destruct (Hsub ctx w0) as (w1 & -> & Hres & Hc & Hv) end;
      try reflexivity.
    { world_simpl. rewrite <- app_assoc. eexists. split; [reflexivity|].
      reflexivity. }
    exists w1. split; [reflexivity|]. split; [exact Hres|].
    apply Hdone; assumption.
Qed.

Lemma execute_then_coordinator_reply_witness :
  ∃ w1,
    execute_transaction Sample.E 4 Sample.open_c 1 3 empty_world
    = Returned true w1
    ∧ results_for 3 (drop (length (w_trace (@empty_world nat nat)))
                       (w_trace w1)) = []
    ∧ ∃ w2,
        deliver Sample.E 0 Sample.open_c
          (coordinator_reply
             (length (w_coordinator_cbs (@empty_world nat nat)))
             (Some true)) w1
        = Returned tt w2
        ∧ w_trace w2
          = w_trace w1 ++ [ev_result_callback 3 (translated (Some true))]
        ∧ w_coordinator_cbs w2 = []
        ∧ w_validate_cbs w2 = [].
Proof.
  destruct (execute_then_coordinator_reply
              Sample.E Sample.open_c 1 3 empty_world 3 4)
    as (w1 & Hex & Hres & Hreply).
  - reflexivity.
  - cbn. lia.
  - intros [|[|[|j]]] Hj; [reflexivity|reflexivity|reflexivity|lia].
  - reflexivity.
  - lia.
  - exists w1. split; [exact Hex|]. split; [exact Hres|].
    exact (Hreply (Some true) 0).
Defined.

(** ** What a pending request remembers *)

Section PendingMore.

Context {full_tx tx_error : Type}.
Variable E : @env full_tx tx_error.
Implicit Types (w : @world full_tx tx_error) (ctx : compact_tx)
  (r : gset N) (tx : full_tx) (c : controller).

(** The closure an entry into [gather_attestations] leaves, if any, holds
    the arguments of the entry, and is left only below the threshold. *)
Lemma gather_attestations_closures fuel c tx cb ctx r w :
  ∃ new,
    w_validate_cbs (final_world (gather_attestations E fuel c tx cb ctx r w))
    = w_validate_cbs w ++ new
    ∧ Forall (λ cl,
                vc_tx cl = tx ∧ vc_result_callback cl = cb ∧ vc_ctx cl = ctx
                ∧ (N.of_nat (size (m_attestations ctx))
                   < m_attestation_threshold (m_opts c))%N)
        new.
Proof.
  rewrite gather_attestations_eq.
  destruct (N.ltb_spec (N.of_nat (size (m_attestations ctx)))
              (m_attestation_threshold (m_opts c))) as [Hlt|Hge].
  - match goal with |- context [gather_loop E fuel c tx cb ctx r ?w1] =>
      destruct (gather_loop_events E fuel c tx cb ctx r w1) as (_ & _ & Hv);
      destruct (gather_loop E fuel c tx cb ctx r w1) as [[] w'|w'|w'] end;
      world_simpl.
    + destruct Hv as (i & _ & ->). eexists. split; [reflexivity|].
      repeat constructor. exact Hlt.
    + exists []. rewrite app_nil_r. split; [exact Hv|constructor].
    + exists []. rewrite app_nil_r. split; [exact Hv|constructor].
  - match goal with |- context [send_compact_tx E fuel ctx cb ?w1] =>
      destruct (send_compact_tx_events E fuel ctx cb w1) as (_ & Hv & _) end.
    world_simpl. exists []. rewrite app_nil_r. split; [exact Hv|constructor].
Qed.

(** Every request a peer holds is sound. *)
Lemma reachable_requests_ok c w :
  reachable E c w → Forall (pending_request_ok E c) (w_validate_cbs w).
Proof.
  induction 1 as [w Hw|w fuel tx cb b w' _ IH Hex|w fuel rp w' _ IH Hd].
  - rewrite Hw. constructor.
  - destruct (check_tx E tx) as [err|] eqn:Hc.
    + rewrite (execute_transaction_invalid E _ _ _ _ _ _ Hc) in Hex.
      injection Hex as _ <-. exact IH.
    + rewrite (execute_transaction_valid E _ _ _ _ _ Hc) in Hex.
      destruct (0 <? m_attestation_threshold (m_opts c))%N;
        apply bind_Returned_inv in Hex as ([] & w1 & Hg & Hr);
        injection Hr as _ <-;
        match type of Hg with gather_attestations E ?f ?c ?tx ?cb ?ctx ?r ?w0 = _ =>
          destruct (gather_attestations_closures f c tx cb ctx r w0)
            as (new & Hv & Hn) end;
        rewrite Hg in Hv; world_simpl; rewrite Hv;
        (apply Forall_app; split; [exact IH|]);
        (eapply Forall_impl; [exact Hn|]);
        intros cl (Htx & _ & Hctx & Hlt); unfold pending_request_ok;
        rewrite Hctx, Htx; repeat split; assumption.
  - destruct rp as [k [a|]|k res].
    + destruct (w_validate_cbs w !! k) as [cl|] eqn:Hk.
      * rewrite (deliver_attestation E _ _ _ _ _ _ Hk) in Hd.
        rewrite Forall_lookup in IH.
        destruct (IH k cl Hk) as (Hok & Hid & Hin & Hout & _).
        match type of Hd with gather_attestations E ?f ?c ?tx ?cb ?ctx ?r ?w0 = _ =>
          destruct (gather_attestations_closures f c tx cb ctx r w0)
            as (new & Hv & Hn) end.
        rewrite Hd in Hv. world_simpl. rewrite Hv.
        apply Forall_app; split.
        { apply Forall_delete. rewrite Forall_lookup. exact IH. }
        eapply Forall_impl; [exact Hn|].
        intros cl' (Htx & _ & Hctx & Hlt). unfold pending_request_ok.
        rewrite Hctx, Htx. repeat split; assumption.
      * unfold deliver, bind, take_validate_cb in Hd. rewrite Hk in Hd.
        injection Hd as <-. cbn. apply Forall_delete; exact IH.
    + destruct (w_validate_cbs w !! k) as [cl|] eqn:Hk.
      * rewrite (deliver_invalidation E _ _ _ _ _ Hk) in Hd.
        injection Hd as <-. cbn. apply Forall_delete; exact IH.
      * unfold deliver, bind, take_validate_cb in Hd. rewrite Hk in Hd.
        injection Hd as <-. cbn. apply Forall_delete; exact IH.
    + pose proof (coordinator_reply_keeps_requests E fuel c k res w) as Hv.
      rewrite Hd in Hv. cbn in Hv. rewrite Hv. exact IH.
Qed.

End PendingMore.

(** X12. Every request a peer holds is for a transaction the validator
    accepts, carries the compact form of exactly that transaction (same
    identity, inputs and outputs, whatever attestations were added), and was
    issued while the attestations were fewer than the threshold: a peer is
    only ever asked for a missing attestation of a valid transaction. *)
Theorem pending_requests_are_sound {full_tx tx_error}
    (E : @env full_tx tx_error) (c : controller) (w : world) (k : nat)
    (cl : validate_closure) :
  reachable E c w →
  w_validate_cbs w !! k = Some cl →
  check_tx E (vc_tx cl) = None
  ∧ m_id (vc_ctx cl) = tx_id E (vc_tx cl)
  ∧ m_inputs (vc_ctx cl) = tx_inputs E (vc_tx cl)
  ∧ m_uhs_outputs (vc_ctx cl) = tx_uhs_outputs E (vc_tx cl)
  ∧ (N.of_nat (size (m_attestations (vc_ctx cl)))
     < m_attestation_threshold (m_opts c))%N.
Proof.
  intros Hreach Hk.
  pose proof (reachable_requests_ok E c w Hreach) as Hall.
  rewrite Forall_lookup in Hall. exact (Hall k cl Hk).
Qed.

Lemma pending_requests_are_sound_witness :
  check_tx Sample.E (vc_tx Sample.first_closure) = None
  ∧ m_id (vc_ctx Sample.first_closure)
    = tx_id Sample.E (vc_tx Sample.first_closure)
  ∧ m_inputs (vc_ctx Sample.first_closure)
    = tx_inputs Sample.E (vc_tx Sample.first_closure)
  ∧ m_uhs_outputs (vc_ctx Sample.first_closure)
    = tx_uhs_outputs Sample.E (vc_tx Sample.first_closure)
  ∧ (N.of_nat (size (m_attestations (vc_ctx Sample.first_closure)))
     < m_attestation_threshold (m_opts Sample.c))%N.
Proof.
  apply (pending_requests_are_sound Sample.E Sample.c Sample.after_execute 0
           Sample.first_closure sample_after_execute_reachable).
  vm_compute. reflexivity.
Defined.

(** X13. A peer that runs this controller with the same validator never
    rejects a request it is sent.  For every request pending in a reachable
    world, [validate_transaction] at any controller returns [true] and
    replies with an attestation, the signature of the transaction's compact
    form under that controller's key; it builds and signs once and contacts
    nobody. *)
Theorem peers_attest_pending_requests {full_tx tx_error}
    (E : @env full_tx tx_error) (c peer : controller) (w wp : world)
    (k : nat) (cl : validate_closure) :
  reachable E c w →
  w_validate_cbs w !! k = Some cl →
  validate_transaction E peer (vc_tx cl) wp
  = Returned
      (true,
       Some (sign E (compact_tx_from E (vc_tx cl)) (m_privkey peer)))
      {| w_draws := w_draws wp;
         w_coordinator_calls := w_coordinator_calls wp;
         w_db_calls := w_db_calls wp;
         w_validate_cbs := w_validate_cbs wp;
         w_coordinator_cbs := w_coordinator_cbs wp;
         w_trace :=
           w_trace wp
           ++ [ev_compact_tx (vc_tx cl);
               ev_sign (compact_tx_from E (vc_tx cl))] |}.
Proof.
  intros Hreach Hk.
  pose proof (reachable_requests_ok E c w Hreach) as Hall.
  rewrite Forall_lookup in Hall. destruct (Hall k cl Hk) as (Hok & _).
  unfold validate_transaction. rewrite Hok.
  unfold bind, compact_tx_of, compact_tx_sign, bind, emit, ret. cbn.
  rewrite <- app_assoc. reflexivity.
Qed.

Lemma peers_attest_pending_requests_witness :
  validate_transaction Sample.E Sample.open_c (vc_tx Sample.first_closure)
    empty_world
  = Returned
      (true,
       Some (sign Sample.E
               (compact_tx_from Sample.E (vc_tx Sample.first_closure))
               (m_privkey Sample.open_c)))
      {| w_draws := 0;
         w_coordinator_calls := 0;
         w_db_calls := 0;
         w_validate_cbs := [];
         w_coordinator_cbs := [];
         w_trace :=
           [] ++ [ev_compact_tx (vc_tx Sample.first_closure);
                  ev_sign
                    (compact_tx_from Sample.E
                       (vc_tx Sample.first_closure))] |}.
Proof.
  apply (peers_attest_pending_requests
           Sample.E Sample.c Sample.open_c Sample.after_execute empty_world 0
           Sample.first_closure sample_after_execute_reachable).
  vm_compute. reflexivity.
Defined.

(** ** The hexadecimal text of a hash *)

Lemma lt_16_cases (i : N) :
  (i < 16)%N →
  i = 0%N ∨ i = 1%N ∨ i = 2%N ∨ i = 3%N ∨ i = 4%N ∨ i = 5%N ∨ i = 6%N
  ∨ i = 7%N ∨ i = 8%N ∨ i = 9%N ∨ i = 10%N ∨ i = 11%N ∨ i = 12%N
  ∨ i = 13%N ∨ i = 14%N ∨ i = 15%N.
Proof. lia. Qed.

Lemma hex_digit_in_alphabet (i : N) :
  (i < 16)%N → In (hex_digit i) (list_ascii_of_string hex_digits).
Proof.
  intros Hi. apply lt_16_cases in Hi.
  repeat (destruct Hi as [->|Hi]); subst; cbv; tauto.
Qed.

Lemma hex_digit_inj (i j : N) :
  (i < 16)%N → (j < 16)%N → hex_digit i = hex_digit j → i = j.
Proof.
  intros Hi Hj. apply lt_16_cases in Hi. apply lt_16_cases in Hj.
  repeat (destruct Hi as [->|Hi]); subst;
    repeat (destruct Hj as [->|Hj]); subst;
    intros H; try reflexivity; cbv in H; discriminate H.
Qed.

Lemma high_nibble_lt (b : byte) : (N.shiftr (Byte.to_N b) 4 < 16)%N.
Proof.
  rewrite N.shiftr_div_pow2. pose proof (Byte.to_N_bounded b).
  apply N.Div0.div_lt_upper_bound. change (2 ^ 4 * 16)%N with 256%N. lia.
Qed.

Lemma low_nibble_eq (b : byte) :
  N.land (Byte.to_N b) 15 = (Byte.to_N b mod 16)%N.
Proof. change 15%N with (N.ones 4). rewrite N.land_ones. reflexivity. Qed.

Lemma low_nibble_lt (b : byte) : (N.land (Byte.to_N b) 15 < 16)%N.
Proof. rewrite low_nibble_eq. apply N.mod_upper_bound. discriminate. Qed.

Lemma byte_of_nibbles (b1 b2 : byte) :
  N.shiftr (Byte.to_N b1) 4 = N.shiftr (Byte.to_N b2) 4 →
  N.land (Byte.to_N b1) 15 = N.land (Byte.to_N b2) 15 →
  b1 = b2.
Proof.
  rewrite !N.shiftr_div_pow2, !low_nibble_eq. change (2 ^ 4)%N with 16%N.
  intros Hhi Hlo.
  assert (Hn : Byte.to_N b1 = Byte.to_N b2).
  { rewrite (N.div_mod (Byte.to_N b1) 16), (N.div_mod (Byte.to_N b2) 16)
      by discriminate.
    rewrite Hhi, Hlo. reflexivity. }
  pose proof (Byte.of_to_N b1) as H1. rewrite Hn, Byte.of_to_N in H1.
  congruence.
Qed.

Lemma to_hex_length (s : list byte) :
  String.length (to_hex s) = 2 * length s.
Proof.
  induction s as [|b s IH]; [reflexivity|].
  cbn [to_hex String.length length]. rewrite IH. lia.
Qed.

Lemma to_hex_alphabet (s : list byte) :
  Forall (λ ch, In ch (list_ascii_of_string hex_digits))
    (list_ascii_of_string (to_hex s)).
Proof.
  induction s as [|b s IH]; [constructor|].
  cbn [to_hex list_ascii_of_string].
  constructor; [apply hex_digit_in_alphabet, high_nibble_lt|].
  constructor; [apply hex_digit_in_alphabet, low_nibble_lt|exact IH].
Qed.

Lemma to_hex_inj (s s' : list byte) : to_hex s = to_hex s' → s = s'.
Proof.
  revert s'. induction s as [|b s IH]; intros [|b' s'] Heq;
    try reflexivity; try discriminate Heq.
  cbn [to_hex] in Heq. injection Heq as Hhi Hlo Hrest.
  apply hex_digit_inj in Hhi; [|apply high_nibble_lt..].
  apply hex_digit_inj in Hlo; [|apply low_nibble_lt..].
  rewrite (byte_of_nibbles b b' Hhi Hlo), (IH s' Hrest). reflexivity.
Qed.

(** X14. The hexadecimal text that [send_compact_tx] builds for a hash has
    two characters per byte, all of them among [0-9A-F], so it never contains
    the quote that delimits it in the database statements; and different
    hashes give different texts. *)
Theorem to_hex_is_faithful (s : list byte) :
  String.length (to_hex s) = 2 * length s
  ∧ Forall (λ ch, In ch (list_ascii_of_string hex_digits))
      (list_ascii_of_string (to_hex s))
  ∧ ¬ In "'"%char (list_ascii_of_string (to_hex s))
  ∧ ∀ s', to_hex s = to_hex s' → s = s'.
Proof.
  split; [apply to_hex_length|]. split; [apply to_hex_alphabet|]. split.
  - intros Hq. pose proof (to_hex_alphabet s) as Halpha.
    rewrite List.Forall_forall in Halpha. apply Halpha in Hq.
    cbv in Hq. intuition discriminate.
  - apply to_hex_inj.
Qed.

Lemma to_hex_is_faithful_witness :
  String.length (to_hex [x0a; xff]) = 2 * 2
  ∧ (to_hex [x0a; xff] = to_hex [x0a; xff] → [x0a; xff] = [x0a; xff]).
Proof.
  destruct (to_hex_is_faithful [x0a; xff]) as (Hlen & _ & _ & Hinj).
  split; [exact Hlen|exact (Hinj [x0a; xff])].
Defined.

(** ** The statements sent to the database *)

Section ReportMore.

Context {full_tx tx_error : Type}.
Variable E : @env full_tx tx_error.
Implicit Types (w : @world full_tx tx_error) (ctx : compact_tx).









End ReportMore.



(** ** The peer side and the bound on the peers asked *)

(** X16. [validate_transaction] never returns [false] and never fails to
    reply.  It replies with an attestation exactly when the validator accepts
    the transaction, and with no attestation otherwise; in either case it
    contacts no peer and no coordinator, sends nothing to the database and
    invokes no execution callback and leaves every pending callback in
    place. *)
Theorem validate_transaction_replies {full_tx tx_error}
    (E : @env full_tx tx_error) (c : controller) (tx : full_tx) (w : world) :
  ∃ reply w' evs,
    validate_transaction E c tx w = Returned (true, reply) w'
    ∧ (is_Some reply ↔ check_tx E tx = None)
    ∧ w_trace w' = w_trace w ++ evs
    ∧ dispatched_peers evs = []
    ∧ submitted evs = []
    ∧ db_statements_of evs = []
    ∧ (∀ cb, results_for cb evs = [])
    ∧ w_validate_cbs w' = w_validate_cbs w
    ∧ w_coordinator_cbs w' = w_coordinator_cbs w.
Proof.
  unfold validate_transaction.
  destruct (check_tx E tx) as [err|] eqn:Hok.
  - exists None, w, []. rewrite app_nil_r. repeat split; try discriminate.
    intros [? H]; discriminate H.
  - unfold bind, compact_tx_of, compact_tx_sign, bind, emit, ret. cbn.
    eexists _, _, [_; _]. split; [reflexivity|]. cbn.
    rewrite <- app_assoc. repeat split. eexists. reflexivity.
Qed.

Section BoundMore.

Context {full_tx tx_error : Type}.
Variable E : @env full_tx tx_error.
Implicit Types (w : @world full_tx tx_error) (ctx : compact_tx)
  (r : gset N) (tx : full_tx) (c : controller).

(** The peer a returning dispatch loop captured is a client of the
    vector. *)
Lemma gather_loop_client fuel c tx cb ctx r w :
  match gather_loop E fuel c tx cb ctx r w with
  | Returned _ w' =>
      ∃ i, is_Some (m_sentinel_clients c !! N.to_nat i)
           ∧ w_validate_cbs w'
             = w_validate_cbs w
               ++ [{| vc_sentinel_id := i; vc_requested := r;
                      vc_tx := tx; vc_result_callback := cb;
                      vc_ctx := ctx |}]
  | Diverged w' | Undefined w' => w_validate_cbs w' = w_validate_cbs w
  end.
Proof.
  revert w. induction fuel as [|fuel IH]; intros w; [reflexivity|].
  rewrite gather_loop_S. cbv zeta.
  set (i := uniform_draw (m_dist c) (rand E (w_draws w))).
  destruct (decide (i ∈ r)).
  { match goal with |- context [gather_loop E fuel c tx cb ctx r ?w1] =>
      exact (IH w1) end. }
  destruct (m_sentinel_clients c !! N.to_nat i) as [cl|] eqn:Hcl;
    [|reflexivity].
  destruct (peer_accepts E (w_draws w) i).
  - exists i. rewrite Hcl. split; [eexists; reflexivity|reflexivity].
  - match goal with |- context [gather_loop E fuel c tx cb ctx r ?w1] =>
      exact (IH w1) end.
Qed.

Lemma gather_attestations_client fuel c tx cb ctx r w :
  ∃ new,
    w_validate_cbs (final_world (gather_attestations E fuel c tx cb ctx r w))
    = w_validate_cbs w ++ new
    ∧ Forall (λ cl,
                vc_requested cl = r
                ∧ is_Some (m_sentinel_clients c
                             !! N.to_nat (vc_sentinel_id cl)))
        new.
Proof.
  rewrite gather_attestations_eq.
  destruct (_ <? _)%N.
  - match goal with |- context [gather_loop E fuel c tx cb ctx r ?w1] =>
      pose proof (gather_loop_client fuel c tx cb ctx r w1) as Hv;
      destruct (gather_loop E fuel c tx cb ctx r w1) as [[] w'|w'|w'] end;
      world_simpl.
    + destruct Hv as (i & Hi & ->). eexists. split; [reflexivity|].
      repeat constructor. exact Hi.
    + exists []. rewrite app_nil_r. split; [exact Hv|constructor].
    + exists []. rewrite app_nil_r. split; [exact Hv|constructor].
  - match goal with |- context [send_compact_tx E fuel ctx cb ?w1] =>
      destruct (send_compact_tx_events E fuel ctx cb w1) as (_ & Hv & _) end.
    world_simpl. exists []. rewrite app_nil_r. split; [exact Hv|constructor].
Qed.

(** Every peer a pending request names, asked before or being asked, is a
    client of the vector. *)
Lemma reachable_requested_clients c w :
  reachable E c w →
  Forall (λ cl, ∀ i, i ∈ {[vc_sentinel_id cl]} ∪ vc_requested cl →
                     is_Some (m_sentinel_clients c !! N.to_nat i))
    (w_validate_cbs w).
Proof.
  induction 1 as [w Hw|w fuel tx cb b w' _ IH Hex|w fuel rp w' _ IH Hd].
  - rewrite Hw. constructor.
  - destruct (check_tx E tx) as [err|] eqn:Hc.
    + rewrite (execute_transaction_invalid E _ _ _ _ _ _ Hc) in Hex.
      injection Hex as _ <-. exact IH.
    + rewrite (execute_transaction_valid E _ _ _ _ _ Hc) in Hex.
      destruct (0 <? m_attestation_threshold (m_opts c))%N;
        apply bind_Returned_inv in Hex as ([] & w1 & Hg & Hr);
        injection Hr as _ <-;
        match type of Hg with gather_attestations E ?f ?c ?tx ?cb ?ctx ?r ?w0 = _ =>
          destruct (gather_attestations_client f c tx cb ctx r w0)
            as (new & Hv & Hn) end;
        rewrite Hg in Hv; world_simpl; rewrite Hv;
        (apply Forall_app; split; [exact IH|]);
        (eapply Forall_impl; [exact Hn|]);
        intros cl [Hr Hi] i Hin; rewrite Hr in Hin;
        (apply elem_of_union in Hin as [Hin|Hin];
         [apply elem_of_singleton in Hin as ->; exact Hi
         |apply not_elem_of_empty in Hin; contradiction]).
  - destruct rp as [k [a|]|k res].
    + destruct (w_validate_cbs w !! k) as [cl|] eqn:Hk.
      * rewrite (deliver_attestation E _ _ _ _ _ _ Hk) in Hd.
        rewrite Forall_lookup in IH. pose proof (IH k cl Hk) as Hcl.
        match type of Hd with gather_attestations E ?f ?c ?tx ?cb ?ctx ?r ?w0 = _ =>
          destruct (gather_attestations_client f c tx cb ctx r w0)
            as (new & Hv & Hn) end.
        rewrite Hd in Hv. world_simpl. rewrite Hv.
        apply Forall_app; split.
        { apply Forall_delete. rewrite Forall_lookup. exact IH. }
        eapply Forall_impl; [exact Hn|].
        intros cl' [Hr Hi] i Hin. rewrite Hr in Hin.
        apply elem_of_union in Hin as [Hin|Hin].
        -- apply elem_of_singleton in Hin as ->. exact Hi.
        -- apply Hcl. exact Hin.
      * unfold deliver, bind, take_validate_cb in Hd. rewrite Hk in Hd.
        injection Hd as <-. cbn. apply Forall_delete; exact IH.
    + destruct (w_validate_cbs w !! k) as [cl|] eqn:Hk.
      * rewrite (deliver_invalidation E _ _ _ _ _ Hk) in Hd.
        injection Hd as <-. cbn. apply Forall_delete; exact IH.
      * unfold deliver, bind, take_validate_cb in Hd. rewrite Hk in Hd.
        injection Hd as <-. cbn. apply Forall_delete; exact IH.
    + pose proof (coordinator_reply_keeps_requests E fuel c k res w) as Hv.
      rewrite Hd in Hv. cbn in Hv. rewrite Hv. exact IH.
Qed.

End BoundMore.

(** A set of indices below [n] has at most [n] members. *)
Lemma size_of_indices (s : gset N) (n : nat) :
  (∀ i, i ∈ s → N.to_nat i < n) → size s ≤ n.
Proof.
  intros Hs.
  assert (Hsub : s ⊆ list_to_set (N.of_nat <$> seq 0 n)).
  { intros i Hi. apply elem_of_list_to_set, list_elem_of_fmap.
    exists (N.to_nat i). split; [symmetry; apply N2Nat.id|].
    apply elem_of_seq. specialize (Hs i Hi). lia. }
  apply subseteq_size in Hsub. etrans; [exact Hsub|].
  rewrite size_list_to_set.
  - rewrite length_fmap, length_seq. reflexivity.
  - apply NoDup_fmap; [intros x y; apply Nat2N.inj|apply NoDup_seq].
Qed.

(** X17. A transaction asks each peer at most once and never more peers than
    there are.  For every request pending in a reachable world, the peer
    being asked and all peers asked before it for the same transaction are
    clients of the vector, and the peers asked before it, with the peer being
    asked counted as one more, number at most the size of the vector. *)
Theorem requested_peers_are_bounded {full_tx tx_error}
    (E : @env full_tx tx_error) (c : controller) (w : world) (k : nat)
    (cl : validate_closure) :
  reachable E c w →
  w_validate_cbs w !! k = Some cl →
  (∀ i, i ∈ {[vc_sentinel_id cl]} ∪ vc_requested cl →
        is_Some (m_sentinel_clients c !! N.to_nat i))
  ∧ S (size (vc_requested cl)) ≤ length (m_sentinel_clients c).
Proof.
  intros Hreach Hk.
  pose proof (reachable_requested_clients E c w Hreach) as Hall.
  rewrite Forall_lookup in Hall. pose proof (Hall k cl Hk) as Hcl.
  pose proof (reachable_fresh E c w Hreach) as Hfr.
  rewrite Forall_lookup in Hfr. pose proof (Hfr k cl Hk) as Hfresh.
  split; [exact Hcl|].
  rewrite <- (size_insert_fresh _ _ Hfresh).
  apply size_of_indices. intros i Hi.
  apply lookup_lt_is_Some_1, Hcl, Hi.
Qed.

Lemma requested_peers_are_bounded_witness :
  (∀ i, i ∈ {[vc_sentinel_id Sample.first_closure]}
            ∪ vc_requested Sample.first_closure →
        is_Some (m_sentinel_clients Sample.c !! N.to_nat i))
  ∧ S (size (vc_requested Sample.first_closure))
    ≤ length (m_sentinel_clients Sample.c).
Proof.
  apply (requested_peers_are_bounded Sample.E Sample.c Sample.after_execute 0
           Sample.first_closure sample_after_execute_reachable).
  vm_compute. reflexivity.
Defined.
